(** * firecracker-containerd: vsock connection resilience and clone task IDs

    A shallow embedding of
      - runtime/connection_manager.go  (classifier and connection manager),
      - runtime/resilient_clients.go   (the retry-once wrappers),
      - internal/vm/task_translator.go (the clone task ID translator),
      - runtime/firecrackeroci         (the OCI annotation options),
    together with the properties the specification states about them.

    Go values are modelled as follows.  An [int], [int64] or
    [time.Duration] is a [Z] with its 64-bit wrap-around written out
    ([wrap64]); a [float64] is a primitive binary64 float; a [string] is a
    [string] of bytes; a [map[string]string] is a [gmap string string]; a
    nilable pointer or interface is an [option]; a function returning
    [(v, err)] returns a pair.  Code that reads or writes the manager, dials,
    sleeps or performs a remote call runs in a state monad over a [World]
    that holds the manager, the counters that index the outside world's
    answers and the log of what was done. *)

From Stdlib Require Import ZArith Bool List String Ascii Lia.
From Stdlib Require Import Floats.PrimFloat Floats.SpecFloat Floats.FloatOps.
From Stdlib Require Import Floats.FloatAxioms.
From Stdlib Require Import Numbers.Cyclic.Int63.Uint63.
From stdpp Require Import base option list strings pretty gmap.

Local Open Scope string_scope.
Local Open Scope Z_scope.

(** ** Machine integers and floats *)

Definition min_int64 : Z := - 2 ^ 63.
Definition max_int64 : Z := 2 ^ 63 - 1.

(** Two's complement wrap-around of a 64-bit signed integer. *)
Definition wrap64 (z : Z) : Z := (z + 2 ^ 63) mod 2 ^ 64 - 2 ^ 63.

(** [float64(d)] for a 64-bit signed integer [d] (round to nearest even). *)
Definition float64_of_int64 (z : Z) : float :=
  if z =? min_int64 then
    PrimFloat.opp
      (PrimFloat.mul PrimFloat.two (PrimFloat.of_uint63 (Uint63.of_Z (2 ^ 62))))
  else if z <? 0 then PrimFloat.opp (PrimFloat.of_uint63 (Uint63.of_Z (- z)))
  else PrimFloat.of_uint63 (Uint63.of_Z z).

(** [int64(f)]: truncation toward zero.  Go leaves the result of an
    out-of-range conversion to the implementation; the value here is the one
    amd64 produces (the "integer indefinite" value). *)
Definition int64_of_float64 (f : float) : Z :=
  match Prim2SF f with
  | S754_zero _ => 0
  | S754_finite s m e =>
      let mag := if 0 <=? e then Z.shiftl (Z.pos m) e
                 else Z.shiftr (Z.pos m) (- e) in
      let v := if s then - mag else mag in
      if (min_int64 <=? v) && (v <=? max_int64) then v else min_int64
  | S754_infinity _ | S754_nan => min_int64
  end.

(** ** time.Duration *)

Module time.
Definition Duration := Z.
Definition Nanosecond : Duration := 1.
Definition Millisecond : Duration := 1000000.
Definition Second : Duration := 1000000000.
End time.

(** ** Errors *)

Module codes.
(** google.golang.org/grpc/codes *)
Inductive Code :=
| OK | Canceled | Unknown | InvalidArgument | DeadlineExceeded | NotFound
| AlreadyExists | PermissionDenied | ResourceExhausted | FailedPrecondition
| Aborted | OutOfRange | Unimplemented | Internal | Unavailable | DataLoss
| Unauthenticated.
End codes.

(** What a [net.Error] answers to [Timeout()] and [Temporary()]. *)
Record netError := { Timeout : bool; Temporary : bool }.

(** A non-nil Go [error], by what the code can observe of it: whether the
    type assertion [err.(net.Error)] succeeds (and then its two answers),
    whether [status.FromError(err)] reports a gRPC status (and then its
    code), the text [err.Error()], and the error it wraps, if any.  A nil
    [error] is [None : option error]. *)
#[warnings="-register-all"]
Inductive error : Type := mkError {
  asNetError : option netError;
  grpcStatus : option codes.Code;
  Error : string;
  Unwrap : option error
}.

(** [errors.New(msg)] and [fmt.Errorf(msg)] without [%w]. *)
Definition errors_New (msg : string) : error :=
  {| asNetError := None; grpcStatus := None; Error := msg; Unwrap := None |}.

(** [fmt.Errorf(prefix + "%w", err)]: the result is a [*fmt.wrapError], which
    is not a [net.Error]; [status.FromError] looks through [Unwrap]. *)
Definition fmt_Errorf_w (prefix : string) (err : error) : error :=
  {| asNetError := None;
     grpcStatus := grpcStatus err;
     Error := prefix +:+ Error err;
     Unwrap := Some err |}.

Module context.
(** [context.DeadlineExceeded] implements [net.Error] with [Timeout()] and
    [Temporary()] both true. *)
Definition DeadlineExceeded : error :=
  {| asNetError := Some {| Timeout := true; Temporary := true |};
     grpcStatus := None;
     Error := "context deadline exceeded";
     Unwrap := None |}.
Definition Canceled : error := errors_New "context canceled".
End context.

(** ** The connection error classifier (connection_manager.go) *)

(** [s[n:]] *)
Definition slice_from (n : nat) (s : string) : string :=
  String.substring n (String.length s - n) s.

Definition connectionErrorPatterns : list string :=
  [ "connection refused";
    "connection reset";
    "broken pipe";
    "EOF";
    "connection lost";
    "no such file or directory";
    "context deadline exceeded: unknown" ].

(** The condition of the [if] in the loop over the patterns. *)
Definition patternMatches (errStr pattern : string) : bool :=
  (0 <? String.length errStr)%nat && (0 <? String.length pattern)%nat &&
  (String.length pattern <=? String.length errStr)%nat &&
  String.eqb
    (slice_from (String.length errStr - String.length pattern) errStr)
    pattern.

(** [for _, pattern := range patterns { if ... { return true } }; return false] *)
Fixpoint anyPatternMatches (errStr : string) (patterns : list string) : bool :=
  match patterns with
  | [] => false
  | pattern :: rest =>
      if patternMatches errStr pattern then true
      else anyPatternMatches errStr rest
  end.

Definition isConnectionCode (c : codes.Code) : bool :=
  match c with
  | codes.Unavailable | codes.DeadlineExceeded | codes.Canceled => true
  | _ => false
  end.

Definition isConnectionError (err : option error) : bool :=
  match err with
  | None => false
  | Some err =>
      match asNetError err with
      | Some netErr => Timeout netErr || Temporary netErr
      | None =>
          match grpcStatus err with
          | Some c =>
              if isConnectionCode c then true
              else anyPatternMatches (Error err) connectionErrorPatterns
          | None => anyPatternMatches (Error err) connectionErrorPatterns
          end
      end
  end.

(** ** The connection manager (connection_manager.go) *)

Record ConnectionConfig := {
  MaxRetries : Z;
  InitialBackoff : time.Duration;
  MaxBackoff : time.Duration;
  BackoffFactor : float;
  ConnectTimeout : time.Duration
}.

(** [defaultVSockConnectTimeout] is declared outside the files at hand and is
    taken as an argument. *)
Definition DefaultConnectionConfig (defaultVSockConnectTimeout : time.Duration)
  : ConnectionConfig :=
  {| MaxRetries := 3;
     InitialBackoff := 100 * time.Millisecond;
     MaxBackoff := 5 * time.Second;
     BackoffFactor := 2%float;
     ConnectTimeout := defaultVSockConnectTimeout |}.

(** A [net.Conn] and the [*ttrpc.Client] built on it are named by the index
    of the dial that produced them, so two dials never give the same
    handle. *)
Definition Conn := nat.
Definition RpcClient := nat.

(** Each client of the bundle is the [*ttrpc.Client] it was built on. *)
Record AgentClients := {
  TaskClient : RpcClient;
  AgentTaskClient : RpcClient;
  EventBridgeClient : RpcClient;
  DriveMountClient : RpcClient;
  IOProxyClient : RpcClient
}.

(** The logger and the mutex carry no state of the sequential behaviour and
    are left out. *)
Record ConnectionManager := {
  vsockPath : string;
  vsockPort : Z;
  config : ConnectionConfig;
  conn : option Conn;
  rpcClient : option RpcClient;
  clients : option AgentClients;
  connecting : bool
}.

Definition NewConnectionManager (vsockPath : string) (vsockPort : Z)
    (config : option ConnectionConfig)
    (defaultVSockConnectTimeout : time.Duration) : ConnectionManager :=
  let config :=
    match config with
    | None => DefaultConnectionConfig defaultVSockConnectTimeout
    | Some config => config
    end in
  {| vsockPath := vsockPath; vsockPort := vsockPort; config := config;
     conn := None; rpcClient := None; clients := None; connecting := false |}.

(** The remote operations of the five services. *)
Inductive Method :=
| Task_State | Task_Create | Task_Start | Task_Delete | Task_Pids | Task_Pause
| Task_Resume | Task_Checkpoint | Task_Kill | Task_Exec | Task_ResizePty
| Task_CloseIO | Task_Update | Task_Wait | Task_Stats | Task_Connect
| Task_Shutdown
| AgentTask_ExecuteCommand | AgentTask_ListExistingTasks
| EventBridge_GetEvent
| DriveMount_MountDrive | DriveMount_UnmountDrive
| IOProxy_State | IOProxy_Attach.

(** Requests and responses are opaque to this layer; they are carried as
    their serialized form. *)
Definition Request := string.
Definition Response := string.

(** What the code does to the outside world, in order. *)
Inductive Event :=
| EvDial (n : nat)                      (* vsock.DialContext *)
| EvBackoff (d : time.Duration)         (* select on time.After(d) *)
| EvSleep (d : time.Duration)           (* time.Sleep(d) *)
| EvCloseRpcClient (c : RpcClient)      (* rpcClient.Close() *)
| EvCloseConn (c : Conn)                (* conn.Close() *)
| EvMarkConnectionBroken                (* MarkConnectionBroken entered *)
| EvCall (m : Method) (c : RpcClient).  (* a remote call on a client *)

(** The outside world: the outcome of the [n]-th dial ([None]: the dial
    succeeds), of the [n]-th backoff wait ([Some err]: [ctx.Done()] fires
    first and [ctx.Err()] is [err]; [None]: the timer fires) and of the
    [n]-th remote call. *)
Record Env := {
  dialResult : nat -> option error;
  ctxDone : nat -> option error;
  rpcResult : nat -> Method -> RpcClient -> Request
              -> option Response * option error
}.

Record World := {
  cm : ConnectionManager;
  dials : nat;
  waits : nat;
  calls : nat;
  trace : list Event
}.

(** *** The state monad *)

Definition M (A : Type) : Type := World -> A * World.

Definition ret {A} (a : A) : M A := fun w => (a, w).
Definition bind {A B} (c : M A) (k : A -> M B) : M B :=
  fun w => let (a, w') := c w in k a w'.

Notation "'let*' x ':=' c1 'in' c2" := (bind c1 (fun x => c2))
  (at level 10, x name, c1 at level 100, c2 at level 200).
Notation "'run' c1 'in' c2" := (bind c1 (fun _ => c2))
  (at level 10, c1 at level 100, c2 at level 200).

Definition getCM : M ConnectionManager := fun w => (cm w, w).

Definition setCM (c : ConnectionManager) : M unit := fun w =>
  (tt, {| cm := c; dials := dials w; waits := waits w; calls := calls w;
          trace := trace w |}).

Definition emit (e : Event) : M unit := fun w =>
  (tt, {| cm := cm w; dials := dials w; waits := waits w; calls := calls w;
          trace := trace w ++ [e] |}).

(** Field updates of the manager. *)
Definition set_conn (v : option Conn) (c : ConnectionManager) :=
  {| vsockPath := vsockPath c; vsockPort := vsockPort c; config := config c;
     conn := v; rpcClient := rpcClient c; clients := clients c;
     connecting := connecting c |}.
Definition set_rpcClient (v : option RpcClient) (c : ConnectionManager) :=
  {| vsockPath := vsockPath c; vsockPort := vsockPort c; config := config c;
     conn := conn c; rpcClient := v; clients := clients c;
     connecting := connecting c |}.
Definition set_clients (v : option AgentClients) (c : ConnectionManager) :=
  {| vsockPath := vsockPath c; vsockPort := vsockPort c; config := config c;
     conn := conn c; rpcClient := rpcClient c; clients := v;
     connecting := connecting c |}.
Definition set_connecting (v : bool) (c : ConnectionManager) :=
  {| vsockPath := vsockPath c; vsockPort := vsockPort c; config := config c;
     conn := conn c; rpcClient := rpcClient c; clients := clients c;
     connecting := v |}.

Definition modifyCM (f : ConnectionManager -> ConnectionManager) : M unit :=
  let* c := getCM in setCM (f c).

Section Manager.
Variable env : Env.

(** [vsock.DialContext]: the next dial of the run. *)
Definition DialContext : M (Conn + error) := fun w =>
  let n := dials w in
  let w' := {| cm := cm w; dials := S n; waits := waits w;
               calls := calls w; trace := trace w ++ [EvDial n] |} in
  match dialResult env n with
  | Some err => (inr err, w')
  | None => (inl n, w')
  end.

(** [ttrpc.NewClient(conn, ttrpc.WithOnClose(func() { _ = conn.Close() }))]:
    the client is named by the conn it is built on, and that conn is what
    its on-close callback closes. *)
Definition ttrpc_NewClient (conn : Conn) : RpcClient := conn.
Definition onCloseConn (r : RpcClient) : Conn := r.

(** [rpcClient.Close()]: the client is closed and its on-close callback
    runs, which closes the conn.  The log places the callback at the
    [Close] that causes it. *)
Definition rpcClient_Close (r : RpcClient) : M unit :=
  run emit (EvCloseRpcClient r) in emit (EvCloseConn (onCloseConn r)).

(** connect performs the actual connection. *)
Definition connect : M (option error) :=
  let* r := DialContext in
  match r with
  | inr err => ret (Some (fmt_Errorf_w "failed to dial VM over vsock: " err))
  | inl conn =>
      let rpcClient := ttrpc_NewClient conn in
      let clients :=
        {| TaskClient := rpcClient;
           AgentTaskClient := rpcClient;
           EventBridgeClient := rpcClient;
           DriveMountClient := rpcClient;
           IOProxyClient := rpcClient |} in
      run modifyCM (set_conn (Some conn)) in
      run modifyCM (set_rpcClient (Some rpcClient)) in
      run modifyCM (set_clients (Some clients)) in
      ret None
  end.

(** Connect establishes the initial vsock connection and creates clients. *)
Definition Connect : M (option error) :=
  let* c := getCM in
  match clients c with
  | Some _ => ret None
  | None => connect
  end.

(** cleanup closes the connection and clears clients. *)
Definition cleanup : M unit :=
  let* c := getCM in
  run (match rpcClient c with
       | Some r => run rpcClient_Close r in modifyCM (set_rpcClient None)
       | None => ret tt
       end) in
  let* c := getCM in
  run (match conn c with
       | Some k => run emit (EvCloseConn k) in modifyCM (set_conn None)
       | None => ret tt
       end) in
  modifyCM (set_clients None).

(** The [select] of the backoff wait: [Some err] when [ctx.Done()] fires
    first, with [err = ctx.Err()]. *)
Definition backoffWait (backoff : time.Duration) : M (option error) :=
  fun w =>
    let n := waits w in
    (ctxDone env n,
     {| cm := cm w; dials := dials w; waits := S n; calls := calls w;
        trace := trace w ++ [EvBackoff backoff] |}).

(** [time.Duration(float64(backoff) * factor)], capped at [MaxBackoff]. *)
Definition increaseBackoff (cfg : ConnectionConfig)
    (backoff : time.Duration) : time.Duration :=
  let nextBackoff :=
    int64_of_float64
      (PrimFloat.mul (float64_of_int64 backoff) (BackoffFactor cfg)) in
  if MaxBackoff cfg <? nextBackoff then MaxBackoff cfg else nextBackoff.

Definition attemptsExhausted (cfg : ConnectionConfig) : error :=
  errors_New ("failed to establish vsock connection after "
              +:+ pretty (wrap64 (MaxRetries cfg + 1)) +:+ " attempts").

(** The [for attempt := 0; attempt <= MaxRetries; attempt++] loop of
    [reconnectIfNeeded].  [fuel] bounds the number of iterations; the loop
    is entered with [MaxRetries + 1] of it, which the condition of the loop
    uses up exactly (see [reconnectLoop_fuel]). *)
Fixpoint reconnectLoop (fuel : nat) (attempt : Z) (backoff : time.Duration)
  : M (option AgentClients * option error) :=
  match fuel with
  | O => let* c := getCM in ret (None, Some (attemptsExhausted (config c)))
  | S fuel' =>
      let* c := getCM in
      if attempt <=? MaxRetries (config c) then
        let* waited :=
          (if 0 <? attempt then
             let* done := backoffWait backoff in
             match done with
             | Some err => ret (inr err)
             | None => ret (inl (increaseBackoff (config c) backoff))
             end
           else ret (inl backoff)) in
        match waited with
        | inr err => ret (None, Some err)
        | inl backoff =>
            let* err := connect in
            match err with
            | None => let* c := getCM in ret (clients c, None)
            | Some _ =>
                run cleanup in
                reconnectLoop fuel' (wrap64 (attempt + 1)) backoff
            end
        end
      else ret (None, Some (attemptsExhausted (config c)))
  end.

(** reconnectIfNeeded attempts to reconnect with retry logic.  In the
    branch taken when [connecting] is set, the lock is released around the
    sleep; run on its own, nothing changes the manager meanwhile. *)
Definition reconnectIfNeeded : M (option AgentClients * option error) :=
  let* c := getCM in
  match clients c with
  | Some cl => ret (Some cl, None)
  | None =>
      if connecting c then
        run emit (EvSleep (50 * time.Millisecond)) in
        let* c := getCM in
        match clients c with
        | Some cl => ret (Some cl, None)
        | None => ret (None, Some (errors_New "connection attempt in progress"))
        end
      else
        run modifyCM (set_connecting true) in
        let* r := reconnectLoop (Z.to_nat (MaxRetries (config c) + 1)) 0
                    (InitialBackoff (config c)) in
        run modifyCM (set_connecting false) in
        ret r
  end.

(** GetClients returns the current clients, attempting reconnection if
    needed. *)
Definition GetClients : M (option AgentClients * option error) :=
  let* c := getCM in
  match clients c with
  | Some cl => ret (Some cl, None)
  | None => reconnectIfNeeded
  end.

(** MarkConnectionBroken marks the current connection as broken and cleans
    it up. *)
Definition MarkConnectionBroken : M unit :=
  run emit EvMarkConnectionBroken in
  let* c := getCM in
  match clients c with
  | Some _ => cleanup
  | None => ret tt
  end.

(** Close closes the connection manager. *)
Definition Close : M (option error) :=
  run cleanup in ret None.

End Manager.

(** ** The resilient clients (resilient_clients.go) *)

Section Resilient.
Variable env : Env.

(** The client of the bundle a method is called on. *)
Definition clientOf (m : Method) (clients : AgentClients) : RpcClient :=
  match m with
  | Task_State | Task_Create | Task_Start | Task_Delete | Task_Pids
  | Task_Pause | Task_Resume | Task_Checkpoint | Task_Kill | Task_Exec
  | Task_ResizePty | Task_CloseIO | Task_Update | Task_Wait | Task_Stats
  | Task_Connect | Task_Shutdown => TaskClient clients
  | AgentTask_ExecuteCommand | AgentTask_ListExistingTasks =>
      AgentTaskClient clients
  | EventBridge_GetEvent => EventBridgeClient clients
  | DriveMount_MountDrive | DriveMount_UnmountDrive =>
      DriveMountClient clients
  | IOProxy_State | IOProxy_Attach => IOProxyClient clients
  end.

(** The remote call [clients.<Service>.<Method>(ctx, req)]. *)
Definition invoke (m : Method) (clients : AgentClients) (req : Request)
  : M (option Response * option error) := fun w =>
  let n := calls w in
  (rpcResult env n m (clientOf m clients) req,
   {| cm := cm w; dials := dials w; waits := waits w; calls := S n;
      trace := trace w ++ [EvCall m (clientOf m clients)] |}).

(** A call through a nil bundle would panic; [GetClients] never returns a
    nil bundle with a nil error (see [GetClients_result]). *)
Definition nilDereference : error :=
  errors_New "invalid memory address or nil pointer dereference".

(** One iteration of [for attempt := 0; attempt <= 1; attempt++], the body
    every wrapper method repeats; [continue] is the rest of the loop. *)
Definition attemptBody (m : Method) (req : Request) (attempt : Z)
    (continue : M (option Response * option error))
  : M (option Response * option error) :=
  let* r := GetClients env in
  match r with
  | (_, Some err) => ret (None, Some err)
  | (None, None) => ret (None, Some nilDereference)
  | (Some clients, None) =>
      let* r := invoke m clients req in
      match r with
      | (result, None) => ret (result, None)
      | (_, Some err) =>
          if isConnectionError (Some err) && (attempt =? 0) then
            run MarkConnectionBroken in continue
          else ret (None, Some err)
      end
  end.

(** The whole method: attempts 0 and 1, then the statement after the
    loop. *)
Definition resilientCall (m : Method) (req : Request)
  : M (option Response * option error) :=
  attemptBody m req 0
    (attemptBody m req 1
       (ret (None, Some context.DeadlineExceeded))).

End Resilient.

(** The exported methods. *)
Module ResilientTaskClient.
Definition State (env : Env) := resilientCall env Task_State.
Definition Create (env : Env) := resilientCall env Task_Create.
Definition Start (env : Env) := resilientCall env Task_Start.
Definition Delete (env : Env) := resilientCall env Task_Delete.
Definition Pids (env : Env) := resilientCall env Task_Pids.
Definition Pause (env : Env) := resilientCall env Task_Pause.
Definition Resume (env : Env) := resilientCall env Task_Resume.
Definition Checkpoint (env : Env) := resilientCall env Task_Checkpoint.
Definition Kill (env : Env) := resilientCall env Task_Kill.
Definition Exec (env : Env) := resilientCall env Task_Exec.
Definition ResizePty (env : Env) := resilientCall env Task_ResizePty.
Definition CloseIO (env : Env) := resilientCall env Task_CloseIO.
Definition Update (env : Env) := resilientCall env Task_Update.
Definition Wait (env : Env) := resilientCall env Task_Wait.
Definition Stats (env : Env) := resilientCall env Task_Stats.
Definition Connect (env : Env) := resilientCall env Task_Connect.
Definition Shutdown (env : Env) := resilientCall env Task_Shutdown.
End ResilientTaskClient.

Module ResilientAgentTaskClient.
Definition ExecuteCommand (env : Env) :=
  resilientCall env AgentTask_ExecuteCommand.
Definition ListExistingTasks (env : Env) :=
  resilientCall env AgentTask_ListExistingTasks.
End ResilientAgentTaskClient.

Module ResilientEventBridgeClient.
(** [GetEvent] takes no request. *)
Definition GetEvent (env : Env) := resilientCall env EventBridge_GetEvent "".
End ResilientEventBridgeClient.

Module ResilientDriveMountClient.
Definition MountDrive (env : Env) := resilientCall env DriveMount_MountDrive.
Definition UnmountDrive (env : Env) :=
  resilientCall env DriveMount_UnmountDrive.
End ResilientDriveMountClient.

Module ResilientIOProxyClient.
Definition State (env : Env) := resilientCall env IOProxy_State.
Definition Attach (env : Env) := resilientCall env IOProxy_Attach.
End ResilientIOProxyClient.

(** The request a method is called with: [GetEvent] has none. *)
Definition requestOf (m : Method) (req : Request) : Request :=
  match m with
  | EventBridge_GetEvent => ""
  | _ => req
  end.

(** The wrapper method for each remote operation. *)
Definition wrapper (env : Env) (m : Method) (req : Request)
  : M (option Response * option error) :=
  match m with
  | Task_State => ResilientTaskClient.State env req
  | Task_Create => ResilientTaskClient.Create env req
  | Task_Start => ResilientTaskClient.Start env req
  | Task_Delete => ResilientTaskClient.Delete env req
  | Task_Pids => ResilientTaskClient.Pids env req
  | Task_Pause => ResilientTaskClient.Pause env req
  | Task_Resume => ResilientTaskClient.Resume env req
  | Task_Checkpoint => ResilientTaskClient.Checkpoint env req
  | Task_Kill => ResilientTaskClient.Kill env req
  | Task_Exec => ResilientTaskClient.Exec env req
  | Task_ResizePty => ResilientTaskClient.ResizePty env req
  | Task_CloseIO => ResilientTaskClient.CloseIO env req
  | Task_Update => ResilientTaskClient.Update env req
  | Task_Wait => ResilientTaskClient.Wait env req
  | Task_Stats => ResilientTaskClient.Stats env req
  | Task_Connect => ResilientTaskClient.Connect env req
  | Task_Shutdown => ResilientTaskClient.Shutdown env req
  | AgentTask_ExecuteCommand => ResilientAgentTaskClient.ExecuteCommand env req
  | AgentTask_ListExistingTasks =>
      ResilientAgentTaskClient.ListExistingTasks env req
  | EventBridge_GetEvent => ResilientEventBridgeClient.GetEvent env
  | DriveMount_MountDrive => ResilientDriveMountClient.MountDrive env req
  | DriveMount_UnmountDrive => ResilientDriveMountClient.UnmountDrive env req
  | IOProxy_State => ResilientIOProxyClient.State env req
  | IOProxy_Attach => ResilientIOProxyClient.Attach env req
  end.

(** ** The task ID translator (internal/vm/task_translator.go) *)

Record taskTranslator := {
  externalToInternal : gmap string string;
  internalToExternal : gmap string string
}.

Definition NewTaskTranslator : taskTranslator :=
  {| externalToInternal := ∅; internalToExternal := ∅ |}.

Definition TranslateToInternal (t : taskTranslator) (externalID : string)
  : string :=
  match externalToInternal t !! externalID with
  | Some internalID => internalID
  | None => externalID
  end.

Definition TranslateToExternal (t : taskTranslator) (internalID : string)
  : string :=
  match internalToExternal t !! internalID with
  | Some externalID => externalID
  | None => internalID
  end.

Definition RegisterCloneMapping (t : taskTranslator)
    (externalID internalID : string) : taskTranslator :=
  {| externalToInternal := <[externalID := internalID]> (externalToInternal t);
     internalToExternal := <[internalID := externalID]> (internalToExternal t) |}.

Definition IsCloneTask (t : taskTranslator) (externalID : string) : bool :=
  match externalToInternal t !! externalID with
  | Some _ => true
  | None => false
  end.

(** The copy loop [for ext, internal := range m { result[ext] = internal }];
    the order of iteration does not matter for the map that results. *)
Definition GetCloneMappings (t : taskTranslator) : gmap string string :=
  map_fold (fun ext internal result => <[ext := internal]> result) ∅
    (externalToInternal t).

(** ** OCI annotations (runtime/firecrackeroci) *)

Module oci.
(** An [oci.Spec], by what the options below read and write of it: the
    [Annotations] map, which is nil ([None]) or allocated.  [Version] stands
    for the fields the options leave alone. *)
Record Spec := { Version : string; Annotations : option (gmap string string) }.

(** An [oci.SpecOpts], applied to the spec it is given: the spec it leaves
    behind and the error it returns.  The context, the client and the
    container are ignored by every option here. *)
Definition SpecOpts := Spec → Spec * option error.

(** [if s.Annotations == nil { s.Annotations = make(map[string]string) }] *)
Definition allocate (s : Spec) : Spec :=
  match Annotations s with
  | Some _ => s
  | None => {| Version := Version s; Annotations := Some ∅ |}
  end.

(** [s.Annotations[key] = value]; on a nil map the assignment panics, which
    no option below can reach since each allocates first. *)
Definition setAnnotation (key value : string) (s : Spec) : Spec :=
  {| Version := Version s;
     Annotations := Some (<[key := value]> (default ∅ (Annotations s))) |}.

(** [s.Annotations[key]] as a read: absent on a nil map. *)
Definition annotation (s : Spec) (key : string) : option string :=
  Annotations s ≫= (fun m => m !! key).
End oci.

(** runtime/firecrackeroci/annotation.go *)
Module firecrackeroci.
Definition VMIDAnnotationKey : string := "aws.firecracker.vm.id".
Definition VMVCpuCountAnnotationKey : string := "aws.firecracker.vm.vcpu-count".
Definition VMMemSizeMibAnnotationKey : string :=
  "aws.firecracker.vm.mem-size-mib".

(** WithVMID annotates a containerd client's container object with a given
    firecracker VMID. *)
Definition WithVMID (vmID : string) : oci.SpecOpts := fun s =>
  let s := oci.allocate s in
  let s := oci.setAnnotation VMIDAnnotationKey vmID s in
  (s, None).

(** The counts are [uint32]; [fmt.Sprintf("%d", n)] is the decimal text. *)
Definition WithVMSizeConfig (vcpuCount memSizeMib : N) : oci.SpecOpts :=
  fun s =>
    let s := oci.allocate s in
    let s := if (0 <? vcpuCount)%N
             then oci.setAnnotation VMVCpuCountAnnotationKey
                    (pretty vcpuCount) s
             else s in
    let s := if (0 <? memSizeMib)%N
             then oci.setAnnotation VMMemSizeMibAnnotationKey
                    (pretty memSizeMib) s
             else s in
    (s, None).
End firecrackeroci.

(** The annotation file with the clone annotations (its path in the
    repository is not recorded). *)
Module firecrackeroci_clone.
Definition VMIDAnnotationKey : string := "firecracker.vm.id".
Definition VMVCpuCountAnnotationKey : string := "firecracker.vm.vcpu-count".
Definition VMMemSizeMibAnnotationKey : string := "firecracker.vm.mem-size-mib".
Definition VMProvisionMode : string := "firecracker.vm.provision-mode".
Definition VMSnapshotMemoryPath : string :=
  "firecracker.vm.snapshot.memory-path".
Definition VMSnapshotStatePath : string :=
  "firecracker.vm.snapshot.vmstate-path".
Definition VMSnapshotDriveOverrides : string :=
  "firecracker.vm.snapshot.drive-overrides".

(** [type ProvisionMode string] *)
Definition ProvisionMode := string.
Definition ProvisionModeClone : ProvisionMode := "Clone".
Definition ProvisionModeCreate : ProvisionMode := "Create".

Definition WithVMID (vmID : string) : oci.SpecOpts := fun s =>
  let s := oci.allocate s in
  let s := oci.setAnnotation VMIDAnnotationKey vmID s in
  (s, None).

Definition WithVMSizeConfig (vcpuCount memSizeMib : N) : oci.SpecOpts :=
  fun s =>
    let s := oci.allocate s in
    let s := if (0 <? vcpuCount)%N
             then oci.setAnnotation VMVCpuCountAnnotationKey
                    (pretty vcpuCount) s
             else s in
    let s := if (0 <? memSizeMib)%N
             then oci.setAnnotation VMMemSizeMibAnnotationKey
                    (pretty memSizeMib) s
             else s in
    (s, None).

Definition missingSnapshotPaths : error :=
  errors_New
    ("snapshot memory path and state path must be provided "
     +:+ "when using clone provision mode").

Definition WithVMProvisionMode (mode : ProvisionMode)
    (snapshotMemPath snapshotStatePath : string) : oci.SpecOpts := fun s =>
  let s := oci.allocate s in
  let s := oci.setAnnotation VMProvisionMode mode s in
  if String.eqb mode ProvisionModeClone then
    if String.eqb snapshotMemPath "" || String.eqb snapshotStatePath "" then
      (s, Some missingSnapshotPaths)
    else
      let s := oci.setAnnotation VMSnapshotMemoryPath snapshotMemPath s in
      let s := oci.setAnnotation VMSnapshotStatePath snapshotStatePath s in
      (s, None)
  else (s, None).

(** ValidateVMProvisionMode checks that the VM provision mode annotation is
    valid.  [quote] is [strconv.Quote], which the verb [%q] formats a string
    with. *)
Definition ValidateVMProvisionMode (quote : string → string)
    (mode : string) : option error :=
  if negb (String.eqb mode ProvisionModeCreate)
     && negb (String.eqb mode ProvisionModeClone)
     && negb (String.eqb mode "") then
    Some (errors_New
            ("invalid VM provision mode " +:+ quote mode
             +:+ ": must be either " +:+ quote ProvisionModeCreate
             +:+ " or " +:+ quote ProvisionModeClone))
  else None.

(** WithVMSnapshotDriveOverridesJsonMapString annotates a containerd
    client's container object with a given firecracker snapshot drive
    overrides. *)
Definition WithVMSnapshotDriveOverridesJsonMapString (driveOverrides : string)
  : oci.SpecOpts := fun s =>
  let s := oci.allocate s in
  let s := oci.setAnnotation VMSnapshotDriveOverrides driveOverrides s in
  (s, None).
End firecrackeroci_clone.

(** ** Predicates the properties are stated with *)

(** Every entry of one map has its reverse entry in the other. *)
Definition consistent (t : taskTranslator) : Prop :=
  (∀ ext int, externalToInternal t !! ext = Some int →
              internalToExternal t !! int = Some ext) ∧
  (∀ int ext, internalToExternal t !! int = Some ext →
              externalToInternal t !! ext = Some int).

(** Neither ID is already mapped to another partner. *)
Definition noNewPartner (t : taskTranslator) (ext int : string) : Prop :=
  (∀ int', externalToInternal t !! ext = Some int' → int' = int) ∧
  (∀ ext', internalToExternal t !! int = Some ext' → ext' = ext).

(** [s] ends with [suffix]. *)
Definition endsWith (s suffix : string) : Prop :=
  ∃ front, s = front +:+ suffix.

(** A run of registrations, oldest first. *)
Definition registerAll (t : taskTranslator) (l : list (string * string))
  : taskTranslator :=
  fold_left (fun t p => RegisterCloneMapping t p.1 p.2) l t.

(** The error a write on a closed socket gives: a [*net.OpError] over
    [EPIPE], which is a [net.Error] that is neither a timeout nor
    temporary. *)
Definition brokenPipeOpError : error :=
  {| asNetError := Some {| Timeout := false; Temporary := false |};
     grpcStatus := None;
     Error := "write unix @->firecracker.vsock: write: broken pipe";
     Unwrap := None |}.

(** *** Reading the log *)

Definition isDial (e : Event) : bool :=
  match e with EvDial _ => true | _ => false end.
Definition isCall (e : Event) : bool :=
  match e with EvCall _ _ => true | _ => false end.
Definition isMark (e : Event) : bool :=
  match e with EvMarkConnectionBroken => true | _ => false end.
Definition isClose (e : Event) : bool :=
  match e with EvCloseRpcClient _ | EvCloseConn _ => true | _ => false end.

Fixpoint count (p : Event → bool) (l : list Event) : nat :=
  match l with
  | [] => 0
  | e :: l => ((if p e then 1 else 0) + count p l)%nat
  end.

(** The delays of the backoff waits, in order. *)
Fixpoint backoffDelays (l : list Event) : list time.Duration :=
  match l with
  | [] => []
  | EvBackoff d :: l => d :: backoffDelays l
  | _ :: l => backoffDelays l
  end.

(** What was logged between [w] and a later [w']. *)
Definition since (w w' : World) : list Event :=
  drop (length (trace w)) (trace w').

Fixpoint nonDecreasing (l : list Z) : Prop :=
  match l with
  | [] => True
  | x :: l' =>
      match l' with [] => True | y :: _ => x <= y end ∧ nonDecreasing l'
  end.

(** *** States of the manager *)

Definition bundleOf (n : RpcClient) : AgentClients :=
  {| TaskClient := n; AgentTaskClient := n; EventBridgeClient := n;
     DriveMountClient := n; IOProxyClient := n |}.

(** No transport and no client bundle. *)
Definition disconnected (c : ConnectionManager) : Prop :=
  conn c = None ∧ rpcClient c = None ∧ clients c = None.

(** The manager after [cleanup]. *)
Definition cleared (c : ConnectionManager) : ConnectionManager :=
  set_clients None (set_conn None (set_rpcClient None c)).

(** The events [cleanup] logs: the RPC client is closed, which closes its
    conn through the on-close callback, and then the stored conn is
    closed. *)
Definition closeEvents (c : ConnectionManager) : list Event :=
  match rpcClient c with
  | Some r => [EvCloseRpcClient r; EvCloseConn (onCloseConn r)]
  | None => []
  end ++
  match conn c with Some k => [EvCloseConn k] | None => [] end.

(** The states the manager is in between two operations: no reconnect is
    under way, and the bundle, the RPC client and the transport are there
    together, all built by one earlier dial. *)
Definition wellFormed (w : World) : Prop :=
  connecting (cm w) = false ∧
  match clients (cm w) with
  | Some cl =>
      ∃ n, (n < dials w)%nat ∧ cl = bundleOf n ∧
           conn (cm w) = Some n ∧ rpcClient (cm w) = Some n
  | None => conn (cm w) = None ∧ rpcClient (cm w) = None
  end.

Definition newWorld (c : ConnectionManager) : World :=
  {| cm := c; dials := 0; waits := 0; calls := 0; trace := [] |}.

(** The scaling step of the backoff never shrinks a delay of the range the
    configuration allows. *)
Definition scalingGrows (cfg : ConnectionConfig) : Prop :=
  ∀ b, InitialBackoff cfg <= b <= MaxBackoff cfg →
       b <= int64_of_float64
              (PrimFloat.mul (float64_of_int64 b) (BackoffFactor cfg)).

(** The manager after a successful [connect] whose dial was the [n]-th. *)
Definition connectedTo (n : nat) (c : ConnectionManager) : ConnectionManager :=
  set_clients (Some (bundleOf n)) (set_rpcClient (Some n) (set_conn (Some n) c)).

(** What a run of the reconnect loop from [w] to [w'] with result [r] and
    [fuel] iterations at most guarantees. *)
Definition loopRun (fuel : nat) (w w' : World)
    (r : option AgentClients * option error) : Prop :=
  ∃ evs,
    trace w' = (trace w ++ evs)%list ∧
    count isCall evs = 0%nat ∧ count isMark evs = 0%nat ∧
    (count isDial evs ≤ fuel)%nat ∧
    dials w' = (dials w + count isDial evs)%nat ∧
    calls w' = calls w ∧
    match r with
    | (Some cl, None) =>
        ∃ n, (dials w ≤ n < dials w')%nat ∧ cl = bundleOf n ∧
             cm w' = connectedTo n (cm w)
    | (None, Some _) =>
        (count isDial evs = 0%nat ∧ cm w' = cm w) ∨
        ((0 < count isDial evs)%nat ∧ cm w' = cleared (cm w))
    | _ => False
    end.

(** The world after a backoff wait of [d], after a dial that succeeded, and
    after a dial that failed and the [cleanup] that follows it. *)
Definition waitedWorld (d : time.Duration) (w : World) : World :=
  {| cm := cm w; dials := dials w; waits := S (waits w); calls := calls w;
     trace := trace w ++ [EvBackoff d] |}.
Definition connectedWorld (w : World) : World :=
  {| cm := connectedTo (dials w) (cm w); dials := S (dials w);
     waits := waits w; calls := calls w;
     trace := trace w ++ [EvDial (dials w)] |}.
Definition failedDialWorld (w : World) : World :=
  {| cm := cleared (cm w); dials := S (dials w); waits := waits w;
     calls := calls w;
     trace := trace w ++ EvDial (dials w) :: closeEvents (cm w) |}.

(** The world with the [connecting] flag set to [b]. *)
Definition withConnecting (b : bool) (w : World) : World :=
  {| cm := set_connecting b (cm w); dials := dials w; waits := waits w;
     calls := calls w; trace := trace w |}.

(** The world after [MarkConnectionBroken]. *)
Definition brokenWorld (w : World) : World :=
  match clients (cm w) with
  | Some _ =>
      {| cm := cleared (cm w); dials := dials w; waits := waits w;
         calls := calls w;
         trace := trace w ++ EvMarkConnectionBroken :: closeEvents (cm w) |}
  | None =>
      {| cm := cm w; dials := dials w; waits := waits w; calls := calls w;
         trace := trace w ++ [EvMarkConnectionBroken] |}
  end.

(** What a call of [GetClients] from [w] to [w'] with result [r]
    guarantees: it logs no remote call and no [MarkConnectionBroken], dials
    at most [MaxRetries + 1] times, and returns either the stored bundle, a
    bundle built by one of its own dials, or an error. *)
Definition clientsRun (w w' : World)
    (r : option AgentClients * option error) : Prop :=
  ∃ evs,
    trace w' = (trace w ++ evs)%list ∧
    count isCall evs = 0%nat ∧ count isMark evs = 0%nat ∧
    (count isDial evs ≤ Z.to_nat (MaxRetries (config (cm w)) + 1))%nat ∧
    dials w' = (dials w + count isDial evs)%nat ∧
    calls w' = calls w ∧
    config (cm w') = config (cm w) ∧
    match r with
    | (Some cl, None) =>
        clients (cm w') = Some cl ∧
        ((clients (cm w) = Some cl ∧ w' = w) ∨
         (clients (cm w) = None ∧
          ∃ n, (dials w ≤ n < dials w')%nat ∧ cl = bundleOf n))
    | (None, Some _) => clients (cm w) = None ∧ clients (cm w') = None
    | _ => False
    end.

(** *** Worlds the examples run in *)

(** A peer that refuses every dial; the context is never done and every
    remote call would fail with [EOF]. *)
Definition refusingEnv : Env :=
  {| dialResult := fun _ => Some (errors_New "connection refused");
     ctxDone := fun _ => None;
     rpcResult := fun _ _ _ _ => (None, Some (errors_New "EOF")) |}.

(** A peer that accepts every dial and fails every remote call with [err]. *)
Definition failingEnv (err : error) : Env :=
  {| dialResult := fun _ => None;
     ctxDone := fun _ => None;
     rpcResult := fun _ _ _ _ => (None, Some err) |}.

(** The manager of the tests, with the default configuration. *)
Definition freshWorld : World :=
  newWorld (NewConnectionManager "/fake/path" 12345 None (1 * time.Second)).

(** A configuration whose initial backoff is above its maximum. *)
Definition invertedConfig : ConnectionConfig :=
  {| MaxRetries := 3;
     InitialBackoff := 10 * time.Second;
     MaxBackoff := 5 * time.Second;
     BackoffFactor := 2%float;
     ConnectTimeout := 1 * time.Second |}.

Definition worldOf (cfg : ConnectionConfig) : World :=
  newWorld (NewConnectionManager "/fake/path" 12345 (Some cfg)
              (1 * time.Second)).

(** A configuration whose factor is below one. *)
Definition halvingConfig : ConnectionConfig :=
  {| MaxRetries := 3;
     InitialBackoff := 100 * time.Millisecond;
     MaxBackoff := 5 * time.Second;
     BackoffFactor := 0.5%float;
     ConnectTimeout := 1 * time.Second |}.

(** A configuration whose initial backoff is negative. *)
Definition negativeConfig : ConnectionConfig :=
  {| MaxRetries := 3;
     InitialBackoff := -5 * time.Nanosecond;
     MaxBackoff := 5 * time.Second;
     BackoffFactor := 2%float;
     ConnectTimeout := 1 * time.Second |}.

(** A configuration whose delays are above 2^53 nanoseconds, where a
    float64 no longer holds every integer. *)
Definition coarseConfig : ConnectionConfig :=
  {| MaxRetries := 3;
     InitialBackoff := 2 ^ 53 + 1;
     MaxBackoff := 2 ^ 54;
     BackoffFactor := 1%float;
     ConnectTimeout := 1 * time.Second |}.

(** * Properties *)

(** ** The task ID translator *)

Lemma NewTaskTranslator_consistent : consistent NewTaskTranslator.
Proof.
  split; intros a b H; simpl in H; rewrite lookup_empty in H; discriminate.
Qed.

Lemma register_keeps_consistent (t : taskTranslator) (ext int : string) :
  consistent t → noNewPartner t ext int →
  consistent (RegisterCloneMapping t ext int).
Proof.
  intros [Hei Hie] [Hext Hint]. split; simpl.
  - intros e i. rewrite lookup_insert. case_decide as He.
    + intros [= <-]. subst e. by rewrite lookup_insert_eq.
    + intros Hlk. rewrite lookup_insert. case_decide as Hi.
      * subst i. apply Hei in Hlk. apply Hint in Hlk. congruence.
      * by apply Hei.
  - intros i e. rewrite lookup_insert. case_decide as Hi.
    + intros [= <-]. subst i. by rewrite lookup_insert_eq.
    + intros Hlk. rewrite lookup_insert. case_decide as He.
      * subst e. apply Hie in Hlk. apply Hext in Hlk. congruence.
      * by apply Hie.
Qed.

Lemma noNewPartner_fresh (ext int : string) :
  noNewPartner NewTaskTranslator ext int.
Proof.
  split; intros a H; simpl in H; rewrite lookup_empty in H; discriminate.
Qed.

(** Consistency is kept along any run of registrations none of which gives
    an ID a new partner. *)
Lemma registerAll_consistent (l : list (string * string)) :
  ∀ t, consistent t →
       (∀ front p back, l = (front ++ p :: back)%list →
                        noNewPartner (registerAll t front) p.1 p.2) →
       consistent (registerAll t l).
Proof.
  induction l as [|p l IH]; intros t Ht Hall; [done|].
  simpl. apply IH.
  - apply register_keeps_consistent; [done|]. by apply (Hall [] p l).
  - intros front q back ->. by apply (Hall (p :: front) q back).
Qed.

(** C4 (as amended): registering a pair keeps the two maps mutually
    consistent provided neither ID is already mapped to another partner. *)
Theorem RegisterCloneMapping_consistent (t : taskTranslator)
    (ext int : string) :
  consistent t → noNewPartner t ext int →
  consistent (RegisterCloneMapping t ext int).
Proof. apply register_keeps_consistent. Qed.

Lemma RegisterCloneMapping_consistent_witness :
  consistent (RegisterCloneMapping NewTaskTranslator "ext1" "int1").
Proof.
  apply RegisterCloneMapping_consistent.
  - split; intros a b H; simpl in H; rewrite lookup_empty in H; discriminate.
  - split; intros a H; simpl in H; rewrite lookup_empty in H; discriminate.
Defined.

(** C4 (as stated) fails: re-registering an external ID with a new internal
    ID leaves the stale reverse entry of the old internal ID behind. *)
Lemma RegisterCloneMapping_reregister_inconsistent :
  consistent (RegisterCloneMapping NewTaskTranslator "ext1" "int1") ∧
  ¬ consistent
      (RegisterCloneMapping
         (RegisterCloneMapping NewTaskTranslator "ext1" "int1")
         "ext1" "int2").
Proof.
  split.
  - apply register_keeps_consistent;
      [apply NewTaskTranslator_consistent | apply noNewPartner_fresh].
  - intros [_ Hie]. specialize (Hie "int1" "ext1"). simpl in Hie.
    assert (H : (<["ext1" := "int2"]> (<["ext1" := "int1"]> ∅)
                 : gmap string string) !! "ext1" = Some "int1").
    { apply Hie. rewrite lookup_insert_ne by done. by rewrite lookup_insert_eq. }
    rewrite lookup_insert_eq in H. discriminate.
Qed.

(** C8: an ID without a mapping translates to itself and is no clone task;
    after the first registration on a fresh translator both directions
    translate and the external ID is a clone task. *)
Theorem translate_identity_and_first_mapping (t : taskTranslator)
    (id ext int : string) :
  (externalToInternal t !! id = None →
   TranslateToInternal t id = id ∧ IsCloneTask t id = false) ∧
  (internalToExternal t !! id = None → TranslateToExternal t id = id) ∧
  TranslateToInternal (RegisterCloneMapping NewTaskTranslator ext int) ext
    = int ∧
  TranslateToExternal (RegisterCloneMapping NewTaskTranslator ext int) int
    = ext ∧
  IsCloneTask (RegisterCloneMapping NewTaskTranslator ext int) ext = true.
Proof.
  unfold TranslateToInternal, TranslateToExternal, IsCloneTask.
  split; [|split; [|simpl; rewrite !lookup_insert_eq; done]].
  - intros ->. done.
  - intros ->. done.
Qed.

Lemma translate_identity_and_first_mapping_witness :
  (TranslateToInternal NewTaskTranslator "unmapped" = "unmapped" ∧
   IsCloneTask NewTaskTranslator "unmapped" = false) ∧
  TranslateToExternal NewTaskTranslator "unmapped" = "unmapped" ∧
  TranslateToInternal
    (RegisterCloneMapping NewTaskTranslator "ext1" "int1") "ext1" = "int1" ∧
  TranslateToExternal
    (RegisterCloneMapping NewTaskTranslator "ext1" "int1") "int1" = "ext1" ∧
  IsCloneTask (RegisterCloneMapping NewTaskTranslator "ext1" "int1") "ext1"
    = true.
Proof.
  destruct (translate_identity_and_first_mapping
              NewTaskTranslator "unmapped" "ext1" "int1")
    as (H1 & H2 & H3 & H4 & H5).
  split; [apply H1; reflexivity|].
  split; [apply H2; reflexivity|].
  repeat split; assumption.
Defined.

(** [GetCloneMappings] returns a copy with the entries of the external
    map. *)
Lemma GetCloneMappings_copy (t : taskTranslator) :
  GetCloneMappings t = externalToInternal t.
Proof.
  unfold GetCloneMappings.
  induction (externalToInternal t) as [|k v m Hk IH] using map_ind;
    [apply map_fold_empty|].
  rewrite map_fold_insert_L; [by rewrite IH | | done].
  intros j1 j2 z1 z2 y Hne _ _. by apply insert_insert_ne.
Qed.

(** ** The connection error classifier *)

Lemma string_length_app (s1 s2 : string) :
  String.length (s1 +:+ s2) = (String.length s1 + String.length s2)%nat.
Proof. induction s1 as [|c s1 IH]; simpl; [done | by rewrite IH]. Qed.

Lemma substring_whole (s : string) : substring 0 (String.length s) s = s.
Proof. induction s as [|c s IH]; simpl; [done | by rewrite IH]. Qed.

Lemma substring_past_front (front s : string) (m : nat) :
  substring (String.length front) m (front +:+ s) = substring 0 m s.
Proof. induction front as [|c front IH]; simpl; done. Qed.

Lemma slice_from_suffix (front suffix : string) :
  slice_from
    (String.length (front +:+ suffix) - String.length suffix)
    (front +:+ suffix) = suffix.
Proof.
  unfold slice_from. rewrite string_length_app.
  replace (String.length front + String.length suffix
           - String.length suffix)%nat with (String.length front) by lia.
  replace (String.length front + String.length suffix
           - String.length front)%nat with (String.length suffix) by lia.
  rewrite substring_past_front. apply substring_whole.
Qed.

Lemma patternMatches_endsWith (errStr pattern : string) :
  pattern ≠ "" → endsWith errStr pattern →
  patternMatches errStr pattern = true.
Proof.
  intros Hne [front ->]. unfold patternMatches.
  rewrite slice_from_suffix, String.eqb_refl, string_length_app.
  destruct pattern as [|c pattern]; [done|]. simpl String.length.
  repeat (apply andb_true_intro; split); try done.
  - apply Nat.ltb_lt. lia.
  - apply Nat.leb_le. lia.
Qed.

Lemma anyPatternMatches_endsWith (errStr : string) (patterns : list string) :
  (∃ pattern, In pattern patterns ∧ pattern ≠ "" ∧ endsWith errStr pattern) →
  anyPatternMatches errStr patterns = true.
Proof.
  intros (pattern & Hin & Hne & Hend).
  induction patterns as [|q patterns IH]; [destruct Hin|].
  simpl. destruct (patternMatches errStr q) eqn:Hq; [done|].
  destruct Hin as [-> | Hin]; [|by apply IH].
  by rewrite patternMatches_endsWith in Hq.
Qed.

Lemma connectionErrorPatterns_nonempty (pattern : string) :
  In pattern connectionErrorPatterns → pattern ≠ "".
Proof.
  unfold connectionErrorPatterns. simpl.
  intros H; repeat (destruct H as [<- | H]; [done|]); destruct H.
Qed.

(** What does hold: an error that is not a [net.Error] and whose text ends
    with one of the patterns is a connection error. *)
Lemma isConnectionError_suffix (err : error) (pattern : string) :
  asNetError err = None →
  In pattern connectionErrorPatterns → endsWith (Error err) pattern →
  isConnectionError (Some err) = true.
Proof.
  intros Hnet Hin Hend. unfold isConnectionError. rewrite Hnet.
  assert (anyPatternMatches (Error err) connectionErrorPatterns = true) as ->.
  { apply anyPatternMatches_endsWith. exists pattern.
    auto using connectionErrorPatterns_nonempty. }
  destruct (grpcStatus err) as [c|]; [by destruct (isConnectionCode c) | done].
Qed.

(** A [net.Error] is classified by [Timeout()] and [Temporary()] alone. *)
Lemma isConnectionError_netError (err : error) (netErr : netError) :
  asNetError err = Some netErr →
  isConnectionError (Some err) = Timeout netErr || Temporary netErr.
Proof. intros H. unfold isConnectionError. by rewrite H. Qed.

(** The cases of the repository's own test of the classifier. *)
Example isConnectionError_test_cases :
  isConnectionError None = false ∧
  isConnectionError (Some (errors_New "connection refused")) = true ∧
  isConnectionError (Some (errors_New "broken pipe")) = true ∧
  isConnectionError (Some (errors_New "EOF")) = true ∧
  isConnectionError (Some (errors_New "some other error")) = false.
Proof. repeat split. Qed.

(** C2: the text of [brokenPipeOpError] ends with "broken pipe", one of the
    patterns, and the classifier answers false for it: the early return for
    a [net.Error] skips the comparison with the patterns. *)
Theorem isConnectionError_net_error_skips_patterns :
  In "broken pipe" connectionErrorPatterns ∧
  endsWith (Error brokenPipeOpError) "broken pipe" ∧
  isConnectionError (Some brokenPipeOpError) = false.
Proof.
  split; [simpl; tauto|]. split; [|reflexivity].
  by exists "write unix @->firecracker.vsock: write: ".
Qed.

(** ** The connection manager *)

Lemma wrap64_small (z : Z) : min_int64 <= z <= max_int64 → wrap64 z = z.
Proof.
  unfold min_int64, max_int64, wrap64. intros H.
  rewrite Z.mod_small; lia.
Qed.

Lemma count_app (p : Event → bool) (l1 l2 : list Event) :
  count p (l1 ++ l2) = (count p l1 + count p l2)%nat.
Proof. induction l1 as [|e l1 IH]; simpl; [done | rewrite IH; lia]. Qed.

Lemma backoffDelays_app (l1 l2 : list Event) :
  backoffDelays (l1 ++ l2) = (backoffDelays l1 ++ backoffDelays l2)%list.
Proof.
  induction l1 as [|e l1 IH]; simpl; [done|].
  destruct e; simpl; by rewrite ?IH.
Qed.

Lemma since_app (w w' : World) (evs : list Event) :
  trace w' = (trace w ++ evs)%list → since w w' = evs.
Proof. intros H. unfold since. rewrite H. by rewrite drop_app_length. Qed.

Lemma cleared_idemp (c : ConnectionManager) : cleared (cleared c) = cleared c.
Proof. done. Qed.

Lemma cleared_disconnected (c : ConnectionManager) : disconnected (cleared c).
Proof. done. Qed.

Lemma disconnected_cleared (c : ConnectionManager) :
  disconnected c → cleared c = c.
Proof. destruct c; intros (H1 & H2 & H3); simpl in *; by subst. Qed.

Lemma count_closeEvents (p : Event → bool) (c : ConnectionManager) :
  (∀ e, isClose e = true → p e = false) → count p (closeEvents c) = 0%nat.
Proof.
  intros Hp. unfold closeEvents.
  destruct (rpcClient c), (conn c); simpl; rewrite ?Hp; done.
Qed.

Lemma backoffDelays_closeEvents (c : ConnectionManager) :
  backoffDelays (closeEvents c) = [].
Proof. unfold closeEvents. by destruct (rpcClient c), (conn c). Qed.

Section ManagerFacts.
Variable env : Env.

Lemma connect_fails (w : World) (err : error) :
  dialResult env (dials w) = Some err →
  connect env w =
    (Some (fmt_Errorf_w "failed to dial VM over vsock: " err),
     {| cm := cm w; dials := S (dials w); waits := waits w;
        calls := calls w; trace := trace w ++ [EvDial (dials w)] |}).
Proof.
  intros H. unfold connect, DialContext, bind, ret. by rewrite H.
Qed.

Lemma connect_succeeds (w : World) :
  dialResult env (dials w) = None →
  connect env w =
    (None,
     {| cm := set_clients (Some (bundleOf (dials w)))
                (set_rpcClient (Some (dials w))
                   (set_conn (Some (dials w)) (cm w)));
        dials := S (dials w); waits := waits w; calls := calls w;
        trace := trace w ++ [EvDial (dials w)] |}).
Proof.
  intros H. unfold connect, DialContext, bind, ret. by rewrite H.
Qed.

Lemma cleanup_eq (w : World) :
  cleanup w =
    (tt, {| cm := cleared (cm w); dials := dials w; waits := waits w;
            calls := calls w; trace := trace w ++ closeEvents (cm w) |}).
Proof.
  unfold cleanup, closeEvents, cleared, rpcClient_Close, bind, ret, modifyCM,
    getCM, setCM,
    emit, bind.
  destruct w as [[pa po cf [k|] [r|] cl cg] d wt ca tr]; simpl;
    rewrite <- ?app_assoc, ?app_nil_r; done.
Qed.

(** One attempt of the loop: dial, and on failure clean up and go on. *)
Lemma attempt_eq (w : World)
    (continue : M (option AgentClients * option error)) :
  (let* err := connect env in
   match err with
   | None => let* c := getCM in ret (clients c, None)
   | Some _ => run cleanup in continue
   end) w =
  match dialResult env (dials w) with
  | None => ((Some (bundleOf (dials w)), None), connectedWorld w)
  | Some _ => continue (failedDialWorld w)
  end.
Proof.
  unfold bind at 1.
  destruct (dialResult env (dials w)) as [err|] eqn:Hd.
  - rewrite (connect_fails w err Hd). unfold bind at 1.
    rewrite cleanup_eq. unfold failedDialWorld. simpl.
    by rewrite <- app_assoc.
  - by rewrite (connect_succeeds w Hd).
Qed.

(** The loop, one iteration unfolded. *)
Lemma reconnectLoop_step (fuel : nat) (attempt : Z)
    (backoff : time.Duration) (w : World) :
  reconnectLoop env (S fuel) attempt backoff w =
  if attempt <=? MaxRetries (config (cm w)) then
    if 0 <? attempt then
      match ctxDone env (waits w) with
      | Some err => ((None, Some err), waitedWorld backoff w)
      | None =>
          match dialResult env (dials w) with
          | None => ((Some (bundleOf (dials w)), None),
                     connectedWorld (waitedWorld backoff w))
          | Some _ =>
              reconnectLoop env fuel (wrap64 (attempt + 1))
                (increaseBackoff (config (cm w)) backoff)
                (failedDialWorld (waitedWorld backoff w))
          end
      end
    else
      match dialResult env (dials w) with
      | None => ((Some (bundleOf (dials w)), None), connectedWorld w)
      | Some _ =>
          reconnectLoop env fuel (wrap64 (attempt + 1)) backoff
            (failedDialWorld w)
      end
  else ((None, Some (attemptsExhausted (config (cm w)))), w).
Proof.
  cbn [reconnectLoop]. unfold bind at 1. unfold getCM at 1.
  destruct (attempt <=? MaxRetries (config (cm w))); [|done].
  destruct (0 <? attempt).
  - unfold bind at 1. unfold bind at 1. unfold backoffWait at 1.
    fold (waitedWorld backoff w).
    destruct (ctxDone env (waits w)); [done|].
    unfold ret at 1. by rewrite attempt_eq.
  - unfold bind at 1. unfold ret at 1. by rewrite attempt_eq.
Qed.

Lemma loopRun_refl (fuel : nat) (w : World) (err : error) :
  loopRun fuel w w (None, Some err).
Proof.
  exists []. rewrite app_nil_r. simpl. repeat split; auto with lia.
Qed.

Lemma loopRun_connected (fuel : nat) (w : World) :
  loopRun (S fuel) w (connectedWorld w) (Some (bundleOf (dials w)), None).
Proof.
  exists [EvDial (dials w)]. simpl. repeat split; auto with lia.
  exists (dials w). repeat split; auto with lia.
Qed.

(** A run that starts with a wait. *)
Lemma loopRun_waited (fuel : nat) (d : time.Duration) (w w' : World)
    (r : option AgentClients * option error) :
  loopRun fuel (waitedWorld d w) w' r → loopRun fuel w w' r.
Proof.
  intros (evs & Htr & Hc & Hm & Hd & Hdl & Hca & Hr). simpl in *.
  exists (EvBackoff d :: evs). simpl.
  rewrite Htr, <- app_assoc. repeat split; auto.
Qed.

(** A run that starts with a failed attempt. *)
Lemma loopRun_failedDial (fuel : nat) (w w' : World)
    (r : option AgentClients * option error) :
  loopRun fuel (failedDialWorld w) w' r → loopRun (S fuel) w w' r.
Proof.
  intros (evs & Htr & Hc & Hm & Hd & Hdl & Hca & Hr). simpl in *.
  exists (EvDial (dials w) :: closeEvents (cm w) ++ evs)%list. simpl.
  rewrite !count_app, !count_closeEvents by (by intros []).
  rewrite Htr, <- app_assoc. simpl. repeat split; auto with lia.
  destruct r as [[cl|] [e|]]; try done.
  - destruct Hr as (n & Hn & -> & ->). exists n. repeat split; auto with lia.
  - right. split; [lia|]. destruct Hr as [[_ ->] | [_ ->]]; done.
Qed.

Lemma reconnectLoop_run (fuel : nat) :
  ∀ attempt backoff w r w',
    reconnectLoop env fuel attempt backoff w = (r, w') →
    loopRun fuel w w' r.
Proof.
  induction fuel as [|fuel IH]; intros attempt backoff w r w' Hrun.
  { injection Hrun as <- <-. apply loopRun_refl. }
  rewrite reconnectLoop_step in Hrun.
  destruct (attempt <=? MaxRetries (config (cm w)));
    [|injection Hrun as <- <-; apply loopRun_refl].
  destruct (0 <? attempt).
  - apply (loopRun_waited _ backoff).
    destruct (ctxDone env (waits w)) as [err|];
      [injection Hrun as <- <-; apply loopRun_refl|].
    destruct (dialResult env (dials w)).
    + apply loopRun_failedDial. eapply IH, Hrun.
    + injection Hrun as <- <-. apply (loopRun_connected _ (waitedWorld _ w)).
  - destruct (dialResult env (dials w)).
    + apply loopRun_failedDial. eapply IH, Hrun.
    + injection Hrun as <- <-. apply loopRun_connected.
Qed.

Lemma reconnectIfNeeded_slow (w : World) :
  clients (cm w) = None → connecting (cm w) = false →
  reconnectIfNeeded env w =
    let (r, w1) :=
      reconnectLoop env (Z.to_nat (MaxRetries (config (cm w)) + 1)) 0
        (InitialBackoff (config (cm w))) (withConnecting true w) in
    (r, withConnecting false w1).
Proof.
  intros Hcl Hcg. unfold reconnectIfNeeded, bind at 1, getCM at 1.
  rewrite Hcl, Hcg. unfold bind at 1. unfold modifyCM, bind, getCM, setCM.
  fold (withConnecting true w).
  by destruct (reconnectLoop env _ 0 _ (withConnecting true w)) as [r w1].
Qed.

Lemma reconnectIfNeeded_contended (w : World) :
  clients (cm w) = None → connecting (cm w) = true →
  reconnectIfNeeded env w =
    ((None, Some (errors_New "connection attempt in progress")),
     {| cm := cm w; dials := dials w; waits := waits w; calls := calls w;
        trace := trace w ++ [EvSleep (50 * time.Millisecond)] |}).
Proof.
  intros Hcl Hcg. unfold reconnectIfNeeded, bind at 1, getCM at 1.
  rewrite Hcl, Hcg. unfold bind, emit, getCM, ret. simpl. by rewrite Hcl.
Qed.

Lemma GetClients_fast (w : World) (cl : AgentClients) :
  clients (cm w) = Some cl → GetClients env w = ((Some cl, None), w).
Proof. intros H. unfold GetClients, bind, getCM, ret. by rewrite H. Qed.

Lemma GetClients_slow (w : World) :
  clients (cm w) = None → GetClients env w = reconnectIfNeeded env w.
Proof. intros H. unfold GetClients, bind, getCM. by rewrite H. Qed.

Lemma GetClients_run (w w' : World)
    (r : option AgentClients * option error) :
  GetClients env w = (r, w') → clientsRun w w' r.
Proof.
  intros Hrun. destruct (clients (cm w)) as [cl|] eqn:Hcl.
  { rewrite (GetClients_fast w cl Hcl) in Hrun. injection Hrun as <- <-.
    exists []. rewrite app_nil_r. simpl. repeat split; auto with lia. }
  rewrite GetClients_slow in Hrun by done.
  destruct (connecting (cm w)) eqn:Hcg.
  { rewrite reconnectIfNeeded_contended in Hrun by done.
    injection Hrun as <- <-.
    exists [EvSleep (50 * time.Millisecond)]. simpl.
    repeat split; auto with lia. }
  rewrite reconnectIfNeeded_slow in Hrun by done.
  destruct (reconnectLoop env _ 0 _ (withConnecting true w))
    as [r1 w1] eqn:Hloop.
  injection Hrun as <- <-. apply reconnectLoop_run in Hloop.
  destruct Hloop as (evs & Htr & Hc & Hm & Hd & Hdl & Hca & Hr).
  simpl in *. exists evs.
  assert (Hcfg : config (cm w1) = config (cm w) ∧
                 (∀ e, r1 = (None, Some e) → clients (cm w1) = None)).
  { destruct r1 as [[cl|] [e|]]; try done.
    - destruct Hr as (n & _ & _ & Hcm). by rewrite Hcm.
    - destruct Hr as [[_ Hcm] | [_ Hcm]]; by rewrite Hcm. }
  destruct Hcfg as [Hcfg Hnone].
  split_and!; try done.
  destruct r1 as [[cl|] [e|]]; try done.
  - destruct Hr as (n & Hn & -> & Hcm). simpl. rewrite Hcm.
    split; [done|]. right. eauto.
  - split; [done|]. simpl. by apply (Hnone e).
Qed.

(** [GetClients] never returns a nil bundle together with a nil error. *)
Lemma GetClients_result (w w' : World) :
  GetClients env w ≠ ((None, None), w').
Proof.
  intros Hrun. apply GetClients_run in Hrun.
  by destruct Hrun as (evs & _ & _ & _ & _ & _ & _ & _ & Hr).
Qed.

Lemma MarkConnectionBroken_eq (w : World) :
  MarkConnectionBroken w = (tt, brokenWorld w).
Proof.
  unfold MarkConnectionBroken, brokenWorld, bind at 1, emit at 1.
  unfold bind at 1, getCM at 1. simpl.
  destruct (clients (cm w)); [|done].
  rewrite cleanup_eq. simpl. by rewrite <- app_assoc.
Qed.

Lemma Connect_eq (w : World) :
  Connect env w =
    match clients (cm w) with
    | Some _ => (None, w)
    | None => connect env w
    end.
Proof. unfold Connect, bind, getCM, ret. by destruct (clients (cm w)). Qed.

Lemma Close_eq (w : World) :
  Close w =
    (None, {| cm := cleared (cm w); dials := dials w; waits := waits w;
              calls := calls w; trace := trace w ++ closeEvents (cm w) |}).
Proof. unfold Close, bind. by rewrite cleanup_eq. Qed.

(** *** The states between operations *)

Lemma wellFormed_new (path : string) (port : Z)
    (cfg : option ConnectionConfig) (timeout : time.Duration) :
  wellFormed (newWorld (NewConnectionManager path port cfg timeout)).
Proof. done. Qed.

Lemma wellFormed_dials (w : World) (c : ConnectionManager) (n : nat)
    (wt ca : nat) (tr : list Event) :
  wellFormed w → c = cm w → (dials w ≤ n)%nat →
  wellFormed {| cm := c; dials := n; waits := wt; calls := ca; trace := tr |}.
Proof.
  intros [Hcg Hcl] -> Hn. split; [done|]. simpl.
  destruct (clients (cm w)); [|done].
  destruct Hcl as (k & Hk & Hrest). exists k. split; [lia | done].
Qed.

Lemma wellFormed_cleared (w : World) (n wt ca : nat) (tr : list Event) :
  connecting (cm w) = false →
  wellFormed {| cm := cleared (cm w); dials := n; waits := wt;
                calls := ca; trace := tr |}.
Proof. intros H. by split. Qed.

Lemma GetClients_wellFormed (w w' : World)
    (r : option AgentClients * option error) :
  wellFormed w → GetClients env w = (r, w') → wellFormed w'.
Proof.
  intros Hwf Hrun. destruct (clients (cm w)) as [cl|] eqn:Hcl.
  { rewrite (GetClients_fast w cl Hcl) in Hrun. by injection Hrun as <- <-. }
  rewrite GetClients_slow in Hrun by done.
  destruct Hwf as [Hcg Hwf]. rewrite Hcl in Hwf. destruct Hwf as [Hco Hrp].
  rewrite reconnectIfNeeded_slow in Hrun by done.
  destruct (reconnectLoop env _ 0 _ (withConnecting true w))
    as [r1 w1] eqn:Hloop.
  injection Hrun as <- <-. apply reconnectLoop_run in Hloop.
  destruct Hloop as (evs & Htr & Hc & Hm & Hd & Hdl & Hca & Hr).
  simpl in *. split; simpl.
  { done. }
  destruct r1 as [[cl|] [e|]]; try done.
  - destruct Hr as (n & Hn & -> & ->). simpl. exists n.
    repeat split; auto with lia.
  - destruct Hr as [[_ ->] | [_ ->]]; simpl; by rewrite ?Hcl.
Qed.

Lemma MarkConnectionBroken_wellFormed (w : World) :
  wellFormed w → wellFormed (brokenWorld w).
Proof.
  intros Hwf. unfold brokenWorld.
  destruct (clients (cm w)) eqn:Hcl.
  - apply wellFormed_cleared, Hwf.
  - by apply (wellFormed_dials w).
Qed.

Lemma Connect_wellFormed (w w' : World) (err : option error) :
  wellFormed w → Connect env w = (err, w') → wellFormed w'.
Proof.
  intros Hwf. rewrite Connect_eq.
  destruct (clients (cm w)) eqn:Hcl; [by intros [= <- <-]|].
  destruct (dialResult env (dials w)) as [e|] eqn:Hd.
  - rewrite (connect_fails w e Hd). intros [= <- <-].
    apply (wellFormed_dials w); auto with lia.
  - rewrite (connect_succeeds w Hd). intros [= <- <-].
    split; simpl; [apply Hwf|]. exists (dials w). auto with lia.
Qed.

Lemma Close_wellFormed (w : World) : wellFormed w → wellFormed (Close w).2.
Proof. intros Hwf. rewrite Close_eq. apply wellFormed_cleared, Hwf. Qed.

(** *** The reconnect loop *)

(** The loop leaves on its own condition before its fuel runs out: more
    fuel changes nothing. *)
Lemma reconnectLoop_fuel (fuel extra : nat) :
  ∀ attempt backoff w,
    0 <= attempt →
    attempt + Z.of_nat fuel = MaxRetries (config (cm w)) + 1 →
    MaxRetries (config (cm w)) < max_int64 →
    reconnectLoop env (fuel + extra) attempt backoff w
    = reconnectLoop env fuel attempt backoff w.
Proof.
  induction fuel as [|fuel IH]; intros attempt backoff w Ha Hf Hmax.
  { destruct extra as [|extra]; [done|]. simpl Nat.add.
    rewrite reconnectLoop_step.
    destruct (Z.leb_spec attempt (MaxRetries (config (cm w)))); [lia|done]. }
  simpl Nat.add. rewrite !reconnectLoop_step.
  assert (Hw : wrap64 (attempt + 1) = attempt + 1).
  { apply wrap64_small. unfold min_int64, max_int64 in *. lia. }
  rewrite Hw.
  destruct (attempt <=? MaxRetries (config (cm w))); [|done].
  destruct (0 <? attempt).
  - destruct (ctxDone env (waits w)); [done|].
    destruct (dialResult env (dials w)); [|done].
    apply IH; simpl; lia.
  - destruct (dialResult env (dials w)); [|done].
    apply IH; simpl; lia.
Qed.

(** When every dial fails and no wait is cut short, the loop makes all
    its attempts and reports that they are exhausted. *)
Lemma reconnectLoop_exhausted (fuel : nat) :
  ∀ attempt backoff w,
    0 <= attempt →
    attempt + Z.of_nat fuel = MaxRetries (config (cm w)) + 1 →
    MaxRetries (config (cm w)) < max_int64 →
    (∀ k, (k < fuel)%nat → dialResult env (dials w + k) ≠ None) →
    (∀ k, Z.of_nat k < Z.of_nat fuel - (if 0 <? attempt then 0 else 1) →
          ctxDone env (waits w + k) = None) →
    ∃ w', reconnectLoop env fuel attempt backoff w
          = ((None, Some (attemptsExhausted (config (cm w)))), w') ∧
          dials w' = (dials w + fuel)%nat.
Proof.
  induction fuel as [|fuel IH];
    intros attempt backoff w Ha Hf Hmax Hdial Hctx.
  { exists w. split; [done | lia]. }
  rewrite reconnectLoop_step.
  assert (Hw : wrap64 (attempt + 1) = attempt + 1).
  { apply wrap64_small. unfold min_int64, max_int64 in *. lia. }
  rewrite Hw.
  destruct (Z.leb_spec attempt (MaxRetries (config (cm w)))); [|lia].
  assert (Hnext : (0 <? attempt + 1) = true) by (apply Z.ltb_lt; lia).
  pose proof (Hdial 0%nat ltac:(lia)) as Hd0. rewrite Nat.add_0_r in Hd0.
  destruct (dialResult env (dials w)) as [e|] eqn:Hd; [clear Hd0|done].
  destruct (Z.ltb_spec 0 attempt).
  - pose proof (Hctx 0%nat ltac:(lia)) as Hc0. rewrite Nat.add_0_r in Hc0.
    rewrite Hc0.
    destruct (IH (attempt + 1) (increaseBackoff (config (cm w)) backoff)
                (failedDialWorld (waitedWorld backoff w)))
      as (w' & Hrun & Hdl); simpl; try lia.
    + intros k Hk. rewrite <- Nat.add_succ_r. apply Hdial. lia.
    + intros k Hk. rewrite <- Nat.add_succ_r. apply Hctx.
      rewrite Hnext in Hk. lia.
    + exists w'. split; [done | simpl in Hdl; lia].
  - destruct (IH (attempt + 1) backoff (failedDialWorld w))
      as (w' & Hrun & Hdl); simpl; try lia.
    + intros k Hk. rewrite <- Nat.add_succ_r. apply Hdial. lia.
    + intros k Hk. apply Hctx. rewrite Hnext in Hk. lia.
    + exists w'. split; [done | simpl in Hdl; lia].
Qed.

(** With a retry count that is not negative the reconnect path dials. *)
Lemma reconnectIfNeeded_dials (w w' : World)
    (r : option AgentClients * option error) :
  clients (cm w) = None → connecting (cm w) = false →
  0 <= MaxRetries (config (cm w)) →
  reconnectIfNeeded env w = (r, w') → (dials w < dials w')%nat.
Proof.
  intros Hcl Hcg Hmax. rewrite reconnectIfNeeded_slow by done.
  destruct (Z.to_nat (MaxRetries (config (cm w)) + 1)) as [|fuel] eqn:Hfuel;
    [lia|].
  rewrite reconnectLoop_step. change (0 <? 0) with false.
  cbn [withConnecting cm dials set_connecting config].
  destruct (Z.leb_spec 0 (MaxRetries (config (cm w)))); [|lia].
  destruct (dialResult env (dials w)).
  - destruct (reconnectLoop env fuel _ _ _) as [r1 w1] eqn:Hloop.
    intros [= <- <-]. apply reconnectLoop_run in Hloop.
    destruct Hloop as (evs & _ & _ & _ & _ & Hdl & _).
    cbn [failedDialWorld withConnecting dials] in *. lia.
  - intros [= <- <-]. cbn [connectedWorld withConnecting dials]. lia.
Qed.

Lemma increaseBackoff_bounds (cfg : ConnectionConfig)
    (backoff : time.Duration) :
  scalingGrows cfg →
  InitialBackoff cfg <= backoff <= MaxBackoff cfg →
  backoff <= increaseBackoff cfg backoff <= MaxBackoff cfg ∧
  InitialBackoff cfg <= increaseBackoff cfg backoff.
Proof.
  intros Hgrow Hb. specialize (Hgrow backoff Hb). unfold increaseBackoff.
  destruct (Z.ltb_spec (MaxBackoff cfg)
              (int64_of_float64
                 (PrimFloat.mul (float64_of_int64 backoff)
                    (BackoffFactor cfg)))); lia.
Qed.

Lemma nonDecreasing_cons (d : Z) (ds : list Z) :
  nonDecreasing ds → Forall (fun x => d <= x) ds → nonDecreasing (d :: ds).
Proof.
  intros Hnd Hall. split; [|done].
  destruct ds as [|x ds]; [done|]. by inversion Hall.
Qed.

(** The delays of one run of the loop never decrease and stay between the
    backoff the loop is entered with and [MaxBackoff]. *)
Lemma reconnectLoop_delays (fuel : nat) :
  ∀ attempt backoff w r w',
    scalingGrows (config (cm w)) →
    InitialBackoff (config (cm w)) <= backoff <= MaxBackoff (config (cm w)) →
    reconnectLoop env fuel attempt backoff w = (r, w') →
    ∃ evs, trace w' = (trace w ++ evs)%list ∧
           nonDecreasing (backoffDelays evs) ∧
           Forall (fun d => backoff <= d <= MaxBackoff (config (cm w)))
             (backoffDelays evs).
Proof.
  induction fuel as [|fuel IH]; intros attempt backoff w r w' Hgrow Hb Hrun.
  { injection Hrun as <- <-. exists []. by rewrite app_nil_r. }
  rewrite reconnectLoop_step in Hrun.
  destruct (attempt <=? MaxRetries (config (cm w)));
    [|injection Hrun as <- <-; exists []; by rewrite app_nil_r].
  destruct (0 <? attempt).
  - destruct (ctxDone env (waits w)) as [err|].
    { injection Hrun as <- <-. exists [EvBackoff backoff]. simpl.
      repeat split; auto. constructor; [lia | done]. }
    destruct (dialResult env (dials w)).
    + apply IH in Hrun; simpl; [|done|].
      2:{ pose proof (increaseBackoff_bounds _ backoff Hgrow Hb). lia. }
      destruct Hrun as (evs & Htr & Hnd & Hall). simpl in *.
      pose proof (increaseBackoff_bounds _ backoff Hgrow Hb) as Hinc.
      exists (EvBackoff backoff :: EvDial (dials w)
              :: closeEvents (cm w) ++ evs)%list.
      rewrite Htr, <- !app_assoc. split; [done|].
      simpl. rewrite backoffDelays_app, backoffDelays_closeEvents. simpl.
      split.
      * apply nonDecreasing_cons; [done|].
        eapply Forall_impl; [exact Hall|]. simpl. intros; lia.
      * constructor; [lia|].
        eapply Forall_impl; [exact Hall|]. simpl. intros; lia.
    + injection Hrun as <- <-.
      exists [EvBackoff backoff; EvDial (dials w)]. simpl.
      rewrite <- app_assoc. repeat split; auto. constructor; [lia | done].
  - destruct (dialResult env (dials w)).
    + apply IH in Hrun; simpl; [|done|done].
      destruct Hrun as (evs & Htr & Hnd & Hall). simpl in *.
      exists (EvDial (dials w) :: closeEvents (cm w) ++ evs)%list.
      rewrite Htr, <- !app_assoc. split; [done|].
      simpl. rewrite backoffDelays_app, backoffDelays_closeEvents. done.
    + injection Hrun as <- <-. exists [EvDial (dials w)]. by simpl.
Qed.
End ManagerFacts.

(** ** Binary64 arithmetic of the backoff step *)

(** What follows reads [SpecFloat]'s rounding of a product: the mantissa is
    shifted right to 53 digits ([shr], a division by a power of two),
    rounded to the nearest even and renormalised. *)

Lemma shr_1_m (mrs : shr_record) :
  0 <= shr_m mrs → shr_m (shr_1 mrs) = shr_m mrs / 2.
Proof.
  destruct mrs as [m r s]. destruct m as [|[p|p|]|p]; simpl; intros H;
    try lia; try reflexivity.
  - apply Z.div_unique with (r := 1); lia.
  - apply Z.div_unique with (r := 0); lia.
Qed.

Lemma iter_pos_shr_m (p : positive) :
  ∀ mrs, 0 <= shr_m mrs →
         shr_m (SpecFloat.iter_pos shr_1 p mrs) = shr_m mrs / 2 ^ Z.pos p.
Proof.
  assert (Hpow : ∀ q, 0 < 2 ^ Z.pos q) by (intros; apply Z.pow_pos_nonneg; lia).
  induction p as [p IH|p IH|]; intros mrs Hm; simpl SpecFloat.iter_pos.
  - assert (H1 : 0 <= shr_m (shr_1 mrs))
      by (rewrite shr_1_m by done; apply Z.div_pos; lia).
    assert (H2 : 0 <= shr_m (SpecFloat.iter_pos shr_1 p (shr_1 mrs)))
      by (rewrite IH by done; apply Z.div_pos; [done | apply Hpow]).
    rewrite (IH _ H2), (IH _ H1), shr_1_m by done.
    pose proof (Hpow p).
    rewrite !Z.div_div by lia.
    f_equal. replace (Z.pos p~1) with (1 + (Z.pos p + Z.pos p)) by lia.
    rewrite !Z.pow_add_r, Z.pow_1_r by lia. ring.
  - assert (H2 : 0 <= shr_m (SpecFloat.iter_pos shr_1 p mrs))
      by (rewrite IH by done; apply Z.div_pos; [done | apply Hpow]).
    rewrite (IH _ H2), (IH _ Hm).
    pose proof (Hpow p).
    rewrite !Z.div_div by lia.
    f_equal. replace (Z.pos p~0) with (Z.pos p + Z.pos p) by lia.
    rewrite Z.pow_add_r by lia. ring.
  - rewrite shr_1_m by done. reflexivity.
Qed.

Lemma digits2_pos_bounds (p : positive) :
  2 ^ (Z.pos (digits2_pos p) - 1) <= Z.pos p < 2 ^ Z.pos (digits2_pos p).
Proof.
  induction p as [p IH|p IH|]; simpl digits2_pos;
    [| |simpl; lia];
    rewrite Pos2Z.inj_succ;
    replace (Z.succ (Z.pos (digits2_pos p)) - 1)
      with (Z.succ (Z.pos (digits2_pos p) - 1)) by lia;
    rewrite !Z.pow_succ_r by lia; lia.
Qed.

Lemma digits2_pos_unique (p : positive) (d : Z) :
  2 ^ (d - 1) <= Z.pos p < 2 ^ d → Z.pos (digits2_pos p) = d.
Proof.
  intros [Hlo Hhi]. pose proof (digits2_pos_bounds p) as [Hlo' Hhi'].
  assert (Hd : 0 < d).
  { destruct (Z.lt_ge_cases 0 d) as [|Hneg]; [done|].
    destruct (Z.eq_dec d 0) as [->|]; [simpl in Hhi; lia|].
    rewrite Z.pow_neg_r in Hhi by lia. lia. }
  destruct (Z.lt_trichotomy (Z.pos (digits2_pos p)) d) as [Hlt|[Heq|Hgt]];
    [|done|].
  - assert (2 ^ Z.pos (digits2_pos p) <= 2 ^ (d - 1))
      by (apply Z.pow_le_mono_r; lia). lia.
  - assert (2 ^ d <= 2 ^ (Z.pos (digits2_pos p) - 1))
      by (apply Z.pow_le_mono_r; lia). lia.
Qed.

Lemma round_nearest_even_bounds (m : Z) (l : location) :
  m <= round_nearest_even m l <= m + 1.
Proof.
  destruct l as [|[]]; simpl; try lia. destruct (Z.even m); lia.
Qed.

Lemma binary_round_aux_exact (m : positive) (e : Z) :
  Z.pos (digits2_pos m) = 53 → -1074 <= e <= 971 →
  binary_round_aux prec emax false (Z.pos m) e loc_Exact
    = S754_finite false m e.
Proof.
  intros Hd He.
  assert (Hn : fexp prec emax (Zdigits2 (Z.pos m) + e) - e = 0).
  { unfold fexp, SpecFloat.emin, prec, emax, Zdigits2. rewrite Hd. lia. }
  unfold binary_round_aux, shr_fexp. rewrite Hn.
  cbn [shr shr_record_of_loc shr_m loc_of_shr_record round_nearest_even].
  rewrite Hn. cbn [shr shr_m].
  unfold prec, emax. destruct (Z.leb_spec e (1024 - 53)); [done | lia].
Qed.

Lemma digits2_pos_53 (m : positive) :
  Z.pos (digits2_pos m) = 53 → 2 ^ 52 <= Z.pos m < 2 ^ 53.
Proof.
  intros Hd. pose proof (digits2_pos_bounds m) as H. rewrite Hd in H.
  exact H.
Qed.

Lemma float64_of_int64_pos (b : Z) :
  0 < b <= 2 ^ 53 →
  ∃ mx ex,
    Prim2SF (float64_of_int64 b) = S754_finite false mx ex ∧
    Z.pos (digits2_pos mx) = 53 ∧ -52 <= ex <= 1 ∧
    b * 2 ^ 52 = Z.pos mx * 2 ^ (ex + 52).
Proof.
  intros Hb. destruct (Z.eq_dec b (2 ^ 53)) as [->|Hne].
  { exists 4503599627370496%positive, 1.
    split; [vm_compute; reflexivity|]. split; [reflexivity|].
    split; [lia | reflexivity]. }
  unfold float64_of_int64.
  destruct (Z.eqb_spec b min_int64) as [Hmin|_];
    [unfold min_int64 in Hmin; lia|].
  destruct (Z.ltb_spec b 0) as [|_]; [lia|].
  rewrite of_uint63_spec, of_Z_spec.
  rewrite Z.mod_small by (change wB with (2 ^ 63); lia).
  destruct b as [|p|p]; try lia. cbn [binary_normalize].
  unfold binary_round.
  pose proof (digits2_pos_bounds p) as [Hlo Hhi].
  set (d := Z.pos (digits2_pos p)) in *.
  assert (Hd : 1 <= d <= 53).
  { split; [unfold d; lia|].
    destruct (Z.le_gt_cases d 53) as [|Hgt]; [done|].
    assert (2 ^ 53 <= 2 ^ (d - 1)) by (apply Z.pow_le_mono_r; lia). lia. }
  assert (Hf : fexp prec emax (d + 0) = d - 53)
    by (unfold fexp, SpecFloat.emin, prec, emax; lia).
  rewrite Hf. unfold shl_align.
  destruct (d - 53 - 0) as [|q|q] eqn:Hq; try lia.
  - rewrite binary_round_aux_exact by (fold d; lia).
    exists p, 0. split; [done|]. split; [fold d; lia|]. split; [lia | done].
  - change (Pos.iter xO p q) with (shift_pos q p).
    assert (Hpow : 2 ^ 52 = 2 ^ (d - 1) * 2 ^ Z.pos q).
    { rewrite <- Z.pow_add_r by lia. f_equal. lia. }
    assert (Hpow' : 2 ^ 53 = 2 ^ d * 2 ^ Z.pos q).
    { rewrite <- Z.pow_add_r by lia. f_equal. lia. }
    assert (Hs : Z.pos (shift_pos q p) = 2 ^ Z.pos q * Z.pos p)
      by apply shift_pos_correct.
    assert (0 < 2 ^ Z.pos q) by (apply Z.pow_pos_nonneg; lia).
    assert (Hds : Z.pos (digits2_pos (shift_pos q p)) = 53).
    { apply digits2_pos_unique. change (53 - 1) with 52.
      rewrite Hs, Hpow, Hpow'. nia. }
    rewrite binary_round_aux_exact by (done || lia).
    exists (shift_pos q p), (d - 53). split; [done|]. split; [done|].
    split; [lia|]. rewrite Hs, Hpow.
    replace (d - 53 + 52) with (d - 1) by lia. ring.
Qed.

Lemma BackoffFactor_range (f : float) :
  PrimFloat.leb 1 f = true → PrimFloat.leb f 256 = true →
  ∃ my ey,
    Prim2SF f = S754_finite false my ey ∧
    Z.pos (digits2_pos my) = 53 ∧ -52 <= ey <= -44.
Proof.
  rewrite !FloatAxioms.leb_spec. pose proof (Prim2SF_valid f) as Hv.
  replace (Prim2SF 1) with (S754_finite false 4503599627370496 (-52))
    by (vm_compute; reflexivity).
  replace (Prim2SF 256) with (S754_finite false 4503599627370496 (-44))
    by (vm_compute; reflexivity).
  destruct (Prim2SF f) as [s|s| |s m e]; unfold SFleb, SFcompare;
    try discriminate; try (destruct s; discriminate).
  destruct s; [discriminate|]. intros H1 H2.
  assert (He : -52 <= e <= -44).
  { destruct (Z.compare_spec (-52) e), (Z.compare_spec e (-44));
      try discriminate; lia. }
  exists m, e. split; [done|]. split; [|done].
  unfold valid_binary, bounded, canonical_mantissa in Hv.
  apply andb_true_iff in Hv as [Hv _]. apply Z.eqb_eq in Hv.
  unfold fexp, SpecFloat.emin, prec, emax in Hv. lia.
Qed.

(** Rounding a mantissa of [53 + n] digits to 53 digits: the result is the
    mantissa shifted right by [n], or the next integer, renormalised when
    that integer is 2^53. *)
Lemma binary_round_aux_shift (P n : positive) (E : Z) :
  Z.pos (digits2_pos P) = 53 + Z.pos n →
  -1074 <= E + Z.pos n <= 970 →
  ∃ m e r,
    binary_round_aux prec emax false (Z.pos P) E loc_Exact
      = S754_finite false m e ∧
    Z.pos P / 2 ^ Z.pos n <= r <= 2 ^ 53 ∧ 2 ^ 52 <= r ∧
    E + Z.pos n <= e ∧
    Z.pos m * 2 ^ (e - (E + Z.pos n)) = r.
Proof.
  intros Hd HE.
  assert (Hn : fexp prec emax (Zdigits2 (Z.pos P) + E) - E = Z.pos n).
  { unfold fexp, SpecFloat.emin, prec, emax, Zdigits2. rewrite Hd. lia. }
  unfold binary_round_aux, shr_fexp. rewrite Hn. cbn [shr].
  set (mrs1 := SpecFloat.iter_pos shr_1 n (shr_record_of_loc (Z.pos P) loc_Exact)).
  assert (Hq : shr_m mrs1 = Z.pos P / 2 ^ Z.pos n).
  { unfold mrs1. rewrite iter_pos_shr_m; [done | simpl; lia]. }
  pose proof (digits2_pos_bounds P) as [Hlo Hhi]. rewrite Hd in Hlo, Hhi.
  assert (H2n : 0 < 2 ^ Z.pos n) by (apply Z.pow_pos_nonneg; lia).
  replace (53 + Z.pos n - 1) with (Z.pos n + 52) in Hlo by lia.
  replace (53 + Z.pos n) with (Z.pos n + 53) in Hhi by lia.
  rewrite Z.pow_add_r in Hlo, Hhi by lia.
  assert (Hqlo : 2 ^ 52 <= Z.pos P / 2 ^ Z.pos n)
    by (apply Z.div_le_lower_bound; lia).
  assert (Hqhi : Z.pos P / 2 ^ Z.pos n < 2 ^ 53)
    by (apply Z.div_lt_upper_bound; lia).
  pose proof (round_nearest_even_bounds (shr_m mrs1)
                (loc_of_shr_record mrs1)) as Hr.
  set (r := round_nearest_even (shr_m mrs1) (loc_of_shr_record mrs1)) in *.
  clearbody r. rewrite Hq in Hr. destruct r as [|rp|rp]; try lia.
  destruct (Z.eq_dec (Z.pos rp) (2 ^ 53)) as [Heq|Hne].
  - assert (rp = 9007199254740992%positive) as -> by lia.
    exists 4503599627370496%positive, (E + Z.pos n + 1), (2 ^ 53).
    assert (Hn2 : fexp prec emax
                    (Zdigits2 9007199254740992 + (E + Z.pos n))
                  - (E + Z.pos n) = 1).
    { unfold fexp, SpecFloat.emin, prec, emax.
      change (Zdigits2 9007199254740992) with 54. lia. }
    rewrite Hn2.
    cbn [shr shr_record_of_loc SpecFloat.iter_pos shr_1 shr_m orb].
    unfold prec, emax.
    destruct (Z.leb_spec (E + Z.pos n + 1) (1024 - 53)); [|lia].
    split; [done|]. split; [lia|]. split; [lia|]. split; [lia|].
    replace (E + Z.pos n + 1 - (E + Z.pos n)) with 1 by lia. reflexivity.
  - assert (Hdr : Z.pos (digits2_pos rp) = 53)
      by (apply digits2_pos_unique; change (53 - 1) with 52; lia).
    assert (Hn2 : fexp prec emax (Zdigits2 (Z.pos rp) + (E + Z.pos n))
                  - (E + Z.pos n) = 0).
    { unfold fexp, SpecFloat.emin, prec, emax, Zdigits2. rewrite Hdr. lia. }
    rewrite Hn2. cbn [shr shr_record_of_loc shr_m].
    unfold prec, emax.
    destruct (Z.leb_spec (E + Z.pos n) (1024 - 53)); [|lia].
    exists rp, (E + Z.pos n), (Z.pos rp).
    split; [done|]. split; [lia|]. split; [lia|]. split; [lia|].
    rewrite Z.sub_diag. simpl. lia.
Qed.

(** The product of a float of an integer between 1 and 2^53 and a factor
    between 1 and 256 is at least that integer and below 2^63.  Values are
    compared scaled by 2^52, which makes every exponent non-negative. *)
Lemma SF64mul_lower (mx my : positive) (ex ey : Z) :
  Z.pos (digits2_pos mx) = 53 → Z.pos (digits2_pos my) = 53 →
  -52 <= ex <= 1 → (ex = 1 → Z.pos mx = 2 ^ 52) → -52 <= ey <= -44 →
  ∃ m e,
    SF64mul (S754_finite false mx ex) (S754_finite false my ey)
      = S754_finite false m e ∧
    -52 <= e ∧
    Z.pos mx * 2 ^ (ex + 52) <= Z.pos m * 2 ^ (e + 52) < 2 ^ 63 * 2 ^ 52.
Proof.
  intros Hdx Hdy Hex Hex1 Hey.
  apply digits2_pos_53 in Hdx, Hdy.
  unfold SF64mul, SFmul. cbn [xorb].
  assert (HP : Z.pos (mx * my) = Z.pos mx * Z.pos my) by apply Pos2Z.inj_mul.
  set (P := (mx * my)%positive) in *.
  assert (HPlo : 2 ^ 52 * 2 ^ 52 <= Z.pos P)
    by (rewrite HP; apply Z.mul_le_mono_nonneg; lia).
  assert (HPhi : Z.pos P < 2 ^ 53 * 2 ^ 53)
    by (rewrite HP; apply Z.mul_lt_mono_nonneg; lia).
  assert (Hx : 0 < 2 ^ (ex + 52)) by (apply Z.pow_pos_nonneg; lia).
  destruct (Z.lt_ge_cases (Z.pos P) (2 ^ 105)) as [Hlt|Hge].
  - destruct (binary_round_aux_shift P 52 (ex + ey))
      as (m & e & r & Heq & [Hr1 Hr2] & Hr3 & He & Hm).
    { apply digits2_pos_unique. change (53 + 52 - 1) with 104.
      change (53 + 52) with 105. lia. }
    { lia. }
    exists m, e. split; [done|]. split; [lia|].
    assert (Hme : Z.pos m * 2 ^ (e + 52)
                  = r * (2 ^ (ex + 52) * 2 ^ (ey + 52))).
    { rewrite <- Hm, <- Z.mul_assoc. f_equal.
      rewrite <- !Z.pow_add_r by lia. f_equal. lia. }
    rewrite Hme. split.
    + destruct (Z.eq_dec ey (-52)) as [->|Hne].
      * change (2 ^ (-52 + 52)) with 1.
        assert (Z.pos mx <= Z.pos P / 2 ^ 52).
        { apply Z.div_le_lower_bound; [lia|]. rewrite HP, Z.mul_comm.
          apply Z.mul_le_mono_nonneg_l; lia. }
        rewrite Z.mul_1_r. apply Z.mul_le_mono_nonneg_r; lia.
      * assert (2 ^ 1 <= 2 ^ (ey + 52)) by (apply Z.pow_le_mono_r; lia).
        assert (2 ^ 52 * 2 ^ 1 <= r * 2 ^ (ey + 52))
          by (apply Z.mul_le_mono_nonneg; lia).
        rewrite (Z.mul_comm (2 ^ (ex + 52))), Z.mul_assoc.
        apply Z.mul_le_mono_nonneg_r; lia.
    + assert (2 ^ (ex + 52) * 2 ^ (ey + 52) <= 2 ^ 61).
      { rewrite <- Z.pow_add_r by lia. apply Z.pow_le_mono_r; lia. }
      assert (r * (2 ^ (ex + 52) * 2 ^ (ey + 52)) <= 2 ^ 53 * 2 ^ 61)
        by (apply Z.mul_le_mono_nonneg; lia).
      lia.
  - destruct (binary_round_aux_shift P 53 (ex + ey))
      as (m & e & r & Heq & [Hr1 Hr2] & Hr3 & He & Hm).
    { apply digits2_pos_unique. change (53 + 53 - 1) with 105.
      change (53 + 53) with 106. lia. }
    { lia. }
    assert (Hex0 : ex <= 0).
    { destruct (Z.eq_dec ex 1) as [->|]; [|lia].
      rewrite HP, Hex1 in Hge by done. lia. }
    exists m, e. split; [done|]. split; [lia|].
    assert (Hme : Z.pos m * 2 ^ (e + 52)
                  = r * (2 ^ (ex + 52) * 2 ^ (ey + 53))).
    { rewrite <- Hm, <- Z.mul_assoc. f_equal.
      rewrite <- !Z.pow_add_r by lia. f_equal. lia. }
    rewrite Hme. split.
    + assert (2 ^ 1 <= 2 ^ (ey + 53)) by (apply Z.pow_le_mono_r; lia).
      assert (2 ^ 52 * 2 ^ 1 <= r * 2 ^ (ey + 53))
        by (apply Z.mul_le_mono_nonneg; lia).
      rewrite (Z.mul_comm (2 ^ (ex + 52))), Z.mul_assoc.
      apply Z.mul_le_mono_nonneg_r; lia.
    + assert (2 ^ (ex + 52) * 2 ^ (ey + 53) <= 2 ^ 61).
      { rewrite <- Z.pow_add_r by lia. apply Z.pow_le_mono_r; lia. }
      assert (r * (2 ^ (ex + 52) * 2 ^ (ey + 53)) <= 2 ^ 53 * 2 ^ 61)
        by (apply Z.mul_le_mono_nonneg; lia).
      lia.
Qed.

Lemma int64_of_float64_finite (f : float) (m : positive) (e b : Z) :
  Prim2SF f = S754_finite false m e → -52 <= e →
  b * 2 ^ 52 <= Z.pos m * 2 ^ (e + 52) < 2 ^ 63 * 2 ^ 52 →
  b <= int64_of_float64 f.
Proof.
  intros Hf He [Hlo Hhi]. unfold int64_of_float64. rewrite Hf.
  set (mag := if 0 <=? e then Z.shiftl (Z.pos m) e
              else Z.shiftr (Z.pos m) (- e)).
  assert (Hmag : mag = Z.pos m * 2 ^ (e + 52) / 2 ^ 52).
  { unfold mag. destruct (Z.leb_spec 0 e).
    - rewrite Z.shiftl_mul_pow2, Z.pow_add_r, Z.mul_assoc, Z.div_mul by lia.
      done.
    - rewrite Z.shiftr_div_pow2 by lia.
      rewrite <- (Z.div_mul_cancel_r (Z.pos m) (2 ^ (- e)) (2 ^ (e + 52)))
        by (apply Z.pow_nonzero; lia).
      f_equal. rewrite <- Z.pow_add_r by lia. f_equal. lia. }
  assert (Hb : b <= mag)
    by (rewrite Hmag; apply Z.div_le_lower_bound; lia).
  assert (Hm : 0 <= mag < 2 ^ 63).
  { rewrite Hmag. split; [apply Z.div_pos; lia|].
    apply Z.div_lt_upper_bound; lia. }
  cbv zeta.
  destruct (Z.leb_spec min_int64 mag) as [|Hbad];
    [|unfold min_int64 in Hbad; lia].
  destruct (Z.leb_spec mag max_int64) as [|Hbad];
    [|unfold max_int64 in Hbad; lia].
  done.
Qed.

(** With a factor between 1 and 256, scaling a delay between 0 and 2^53
    nanoseconds never yields less than the delay. *)
Lemma scaling_grows (f : float) (b : Z) :
  PrimFloat.leb 1 f = true → PrimFloat.leb f 256 = true →
  0 <= b <= 2 ^ 53 →
  b <= int64_of_float64 (PrimFloat.mul (float64_of_int64 b) f).
Proof.
  intros H1 H2 Hb.
  destruct (BackoffFactor_range f H1 H2) as (my & ey & Hf & Hdy & Hey).
  destruct (Z.eq_dec b 0) as [->|Hne].
  { unfold int64_of_float64. rewrite FloatAxioms.mul_spec, Hf.
    replace (Prim2SF (float64_of_int64 0)) with (S754_zero false)
      by (vm_compute; reflexivity).
    reflexivity. }
  destruct (float64_of_int64_pos b) as (mx & ex & Hx & Hdx & Hex & Hbx);
    [lia|].
  destruct (SF64mul_lower mx my ex ey) as (m & e & Hmul & He & Hlo & Hhi);
    try done.
  { intros ->. pose proof (digits2_pos_53 mx Hdx).
    change (2 ^ (1 + 52)) with (2 * 2 ^ 52) in Hbx. lia. }
  apply (int64_of_float64_finite _ m e); [|done|lia].
  by rewrite FloatAxioms.mul_spec, Hx, Hf.
Qed.

(** A configuration whose delays are between 0 and 2^53 nanoseconds, the
    integers a float64 holds exactly, and whose factor is between 1 and 256,
    so that no product leaves the range of an int64. *)
Lemma scalingGrows_bounded (cfg : ConnectionConfig) :
  0 <= InitialBackoff cfg → MaxBackoff cfg <= 2 ^ 53 →
  PrimFloat.leb 1 (BackoffFactor cfg) = true →
  PrimFloat.leb (BackoffFactor cfg) 256 = true →
  scalingGrows cfg.
Proof.
  intros H0 Hmax H1 H2 b Hb. apply scaling_grows; [done | done | lia].
Qed.

Lemma increaseBackoff_capped (cfg : ConnectionConfig)
    (backoff : time.Duration) :
  increaseBackoff cfg backoff <= MaxBackoff cfg.
Proof.
  unfold increaseBackoff.
  destruct (Z.ltb_spec (MaxBackoff cfg)
              (int64_of_float64
                 (PrimFloat.mul (float64_of_int64 backoff)
                    (BackoffFactor cfg)))); lia.
Qed.

(** The delays of a run of the loop start with the backoff the loop is
    entered with, and all that follow are capped. *)
Lemma reconnectLoop_later_delays (env : Env) (fuel : nat) :
  ∀ attempt backoff w r w',
    reconnectLoop env fuel attempt backoff w = (r, w') →
    ∃ evs, trace w' = (trace w ++ evs)%list ∧
           (backoffDelays evs = [] ∨
            ∃ rest, backoffDelays evs = backoff :: rest ∧
                    Forall (fun d => d <= MaxBackoff (config (cm w))) rest).
Proof.
  induction fuel as [|fuel IH]; intros attempt backoff w r w' Hrun.
  { injection Hrun as <- <-. exists []. rewrite app_nil_r. auto. }
  rewrite reconnectLoop_step in Hrun.
  destruct (attempt <=? MaxRetries (config (cm w)));
    [|injection Hrun as <- <-; exists []; rewrite app_nil_r; by auto].
  destruct (0 <? attempt).
  - destruct (ctxDone env (waits w)) as [err|].
    { injection Hrun as <- <-. exists [EvBackoff backoff].
      split; [done|]. right. exists []. by split. }
    destruct (dialResult env (dials w)).
    + apply IH in Hrun. destruct Hrun as (evs & Htr & Hds).
      cbn [failedDialWorld waitedWorld trace cm cleared set_clients set_conn
           set_rpcClient config] in *.
      exists (EvBackoff backoff :: EvDial (dials w)
              :: closeEvents (cm w) ++ evs)%list.
      rewrite Htr, <- !app_assoc. split; [done|]. right.
      cbn [backoffDelays].
      rewrite backoffDelays_app, backoffDelays_closeEvents. cbn [app].
      eexists. split; [reflexivity|].
      destruct Hds as [-> | (rest & -> & Hrest)]; [done|].
      constructor; [apply increaseBackoff_capped | done].
    + injection Hrun as <- <-.
      exists [EvBackoff backoff; EvDial (dials w)].
      cbn [connectedWorld waitedWorld trace]. rewrite <- app_assoc.
      split; [done|]. right. exists []. by split.
  - destruct (dialResult env (dials w)).
    + apply IH in Hrun. destruct Hrun as (evs & Htr & Hds).
      cbn [failedDialWorld trace cm cleared set_clients set_conn
           set_rpcClient config] in *.
      exists (EvDial (dials w) :: closeEvents (cm w) ++ evs)%list.
      rewrite Htr, <- !app_assoc. split; [done|].
      cbn [backoffDelays].
      by rewrite backoffDelays_app, backoffDelays_closeEvents.
    + injection Hrun as <- <-. exists [EvDial (dials w)]. auto.
Qed.

(** C6: the reconnect path of [GetClients] dials at most [MaxRetries + 1]
    times; when every one of these dials fails (and no wait is cut short by
    the context) it has dialled [MaxRetries + 1] times, returns the error
    that says so, and leaves the manager without transport and bundle and
    with the [connecting] flag down. *)
Theorem reconnect_attempts_exhausted (env : Env) (w : World) :
  0 <= MaxRetries (config (cm w)) < max_int64 →
  Z.of_nat (count isDial (since w (GetClients env w).2))
    <= MaxRetries (config (cm w)) + 1 ∧
  (clients (cm w) = None → connecting (cm w) = false →
   (∀ k, (k ≤ Z.to_nat (MaxRetries (config (cm w))))%nat →
         dialResult env (dials w + k) ≠ None) →
   (∀ k, (k < Z.to_nat (MaxRetries (config (cm w))))%nat →
         ctxDone env (waits w + k) = None) →
   ∃ w',
     GetClients env w =
       ((None,
         Some (errors_New
                 ("failed to establish vsock connection after "
                  +:+ pretty (MaxRetries (config (cm w)) + 1)
                  +:+ " attempts"))), w') ∧
     Z.of_nat (count isDial (since w w')) = MaxRetries (config (cm w)) + 1 ∧
     disconnected (cm w') ∧ connecting (cm w') = false).
Proof.
  intros Hmax. split.
  { destruct (GetClients env w) as [r w'] eqn:Hrun. simpl.
    apply GetClients_run in Hrun.
    destruct Hrun as (evs & Htr & _ & _ & Hd & _).
    rewrite (since_app _ _ _ Htr). lia. }
  intros Hcl Hcg Hdial Hctx.
  rewrite GetClients_slow, reconnectIfNeeded_slow by done.
  set (fuel := Z.to_nat (MaxRetries (config (cm w)) + 1)).
  destruct (reconnectLoop_exhausted env fuel 0 (InitialBackoff (config (cm w)))
              (withConnecting true w)) as (w1 & Hrun & Hdl); simpl; try lia.
  { intros k Hk. apply Hdial. lia. }
  { intros k Hk. apply Hctx. lia. }
  rewrite Hrun. exists (withConnecting false w1).
  pose proof (reconnectLoop_run env _ _ _ _ _ _ Hrun) as Hpost.
  destruct Hpost as (evs & Htr & _ & _ & _ & Hdl' & _ & Hr). simpl in *.
  assert (Hcount : count isDial evs = fuel) by lia.
  split.
  { unfold attemptsExhausted. rewrite wrap64_small; [done|].
    unfold min_int64, max_int64 in *. lia. }
  split.
  { rewrite (since_app w (withConnecting false w1) evs Htr), Hcount. lia. }
  destruct Hr as [[Hz _] | [_ ->]]; [lia | done].
Qed.

Lemma reconnect_attempts_exhausted_witness :
  Z.of_nat (count isDial
              (since freshWorld (GetClients refusingEnv freshWorld).2))
    <= 3 + 1 ∧
  ∃ w',
    GetClients refusingEnv freshWorld =
      ((None,
        Some (errors_New
                "failed to establish vsock connection after 4 attempts")),
       w') ∧
    Z.of_nat (count isDial (since freshWorld w')) = 3 + 1 ∧
    disconnected (cm w') ∧ connecting (cm w') = false.
Proof.
  destruct (reconnect_attempts_exhausted refusingEnv freshWorld) as [H1 H2].
  { simpl. unfold max_int64. lia. }
  split; [exact H1|].
  apply H2; [reflexivity | reflexivity | discriminate | reflexivity].
Defined.

(** C9 (as amended): when [InitialBackoff] is at most [MaxBackoff], no
    backoff delay of one call of [GetClients] is above [MaxBackoff]; when
    moreover [InitialBackoff] is not negative, [MaxBackoff] is at most 2^53
    nanoseconds and [BackoffFactor] is between 1 and 256, the delays never
    decrease. *)
Theorem backoff_delays_bounded (env : Env) (w : World) :
  InitialBackoff (config (cm w)) <= MaxBackoff (config (cm w)) →
  Forall (fun d => d <= MaxBackoff (config (cm w)))
    (backoffDelays (since w (GetClients env w).2)) ∧
  (0 <= InitialBackoff (config (cm w)) →
   MaxBackoff (config (cm w)) <= 2 ^ 53 →
   PrimFloat.leb 1 (BackoffFactor (config (cm w))) = true →
   PrimFloat.leb (BackoffFactor (config (cm w))) 256 = true →
   nonDecreasing (backoffDelays (since w (GetClients env w).2))).
Proof.
  intros Hle. destruct (clients (cm w)) as [cl|] eqn:Hcl.
  { rewrite (GetClients_fast env w cl Hcl). unfold since. simpl.
    by rewrite drop_all. }
  rewrite GetClients_slow by done.
  destruct (connecting (cm w)) eqn:Hcg.
  { rewrite reconnectIfNeeded_contended by done. unfold since. simpl.
    by rewrite drop_app_length. }
  rewrite reconnectIfNeeded_slow by done.
  destruct (reconnectLoop env _ 0 _ (withConnecting true w))
    as [r w1] eqn:Hrun.
  cbn [snd]. split.
  - apply reconnectLoop_later_delays in Hrun.
    destruct Hrun as (evs & Htr & Hds).
    cbn [withConnecting trace cm set_connecting config] in *.
    rewrite (since_app w (withConnecting false w1) evs Htr).
    destruct Hds as [-> | (rest & -> & Hrest)]; [done|].
    by constructor.
  - intros H0 Hmax H1 H2.
    apply reconnectLoop_delays in Hrun; simpl;
      [|by apply scalingGrows_bounded|lia].
    destruct Hrun as (evs & Htr & Hnd & _). simpl in *.
    by rewrite (since_app w (withConnecting false w1) evs Htr).
Qed.

Lemma backoff_delays_bounded_witness :
  backoffDelays (since freshWorld (GetClients refusingEnv freshWorld).2)
    = [100000000; 200000000; 400000000] ∧
  Forall (fun d => d <= 5000000000)
    (backoffDelays (since freshWorld (GetClients refusingEnv freshWorld).2)) ∧
  nonDecreasing
    (backoffDelays (since freshWorld (GetClients refusingEnv freshWorld).2)).
Proof.
  split; [vm_compute; reflexivity|].
  destruct (backoff_delays_bounded refusingEnv freshWorld) as [Hcap Hnd].
  { vm_compute. discriminate. }
  split; [exact Hcap|].
  apply Hnd.
  - vm_compute. discriminate.
  - vm_compute. discriminate.
  - vm_compute. reflexivity.
  - vm_compute. reflexivity.
Defined.

(** C9 (as stated) fails: with an initial backoff above the maximum the
    first delay is above the maximum and the next one is smaller. *)
Lemma backoff_delays_inverted_config :
  backoffDelays
    (since (worldOf invertedConfig)
       (GetClients refusingEnv (worldOf invertedConfig)).2)
    = [10000000000; 5000000000; 5000000000] ∧
  ¬ nonDecreasing
      (backoffDelays
         (since (worldOf invertedConfig)
            (GetClients refusingEnv (worldOf invertedConfig)).2)) ∧
  ¬ Forall (fun d => d <= MaxBackoff invertedConfig)
      (backoffDelays
         (since (worldOf invertedConfig)
            (GetClients refusingEnv (worldOf invertedConfig)).2)).
Proof.
  assert (H : backoffDelays
                (since (worldOf invertedConfig)
                   (GetClients refusingEnv (worldOf invertedConfig)).2)
              = [10000000000; 5000000000; 5000000000])
    by (vm_compute; reflexivity).
  rewrite H. split; [done|]. split.
  - intros [Hd _]. lia.
  - intros Hall. inversion Hall as [|? ? Hd _]. simpl in Hd.
    unfold time.Second in Hd. lia.
Qed.

(** The second way for the delays to decrease: a factor below one. *)
Lemma backoff_delays_halving_config :
  backoffDelays
    (since (worldOf halvingConfig)
       (GetClients refusingEnv (worldOf halvingConfig)).2)
    = [100000000; 50000000; 25000000].
Proof. vm_compute. reflexivity. Qed.

(** The third: a negative initial backoff, which a factor above one moves
    away from zero. *)
Lemma backoff_delays_negative_config :
  backoffDelays
    (since (worldOf negativeConfig)
       (GetClients refusingEnv (worldOf negativeConfig)).2)
    = [-5; -10; -20].
Proof. vm_compute. reflexivity. Qed.

(** The fourth: a delay above 2^53 nanoseconds that the conversion to
    float64 rounds down, with a factor of one. *)
Lemma backoff_delays_coarse_config :
  backoffDelays
    (since (worldOf coarseConfig)
       (GetClients refusingEnv (worldOf coarseConfig)).2)
    = [2 ^ 53 + 1; 2 ^ 53; 2 ^ 53].
Proof. vm_compute. reflexivity. Qed.

(** The delays of the default configuration. *)
Example backoff_delays_default_config :
  backoffDelays
    (since freshWorld (GetClients refusingEnv freshWorld).2)
    = [100000000; 200000000; 400000000].
Proof. vm_compute. reflexivity. Qed.

(** C5 (as amended): when [Connect] is called while not connected and the
    dial fails, it dials once, leaves the manager as it was and returns the
    dial error wrapped: the text is prefixed with "failed to dial VM over
    vsock: " and the dial error is what the result unwraps to. *)
Theorem Connect_wraps_dial_error (env : Env) (w : World) (err : error) :
  clients (cm w) = None → dialResult env (dials w) = Some err →
  ∃ err' w',
    Connect env w = (Some err', w') ∧
    Error err' = "failed to dial VM over vsock: " +:+ Error err ∧
    Unwrap err' = Some err ∧
    since w w' = [EvDial (dials w)] ∧
    cm w' = cm w.
Proof.
  intros Hcl Hd. rewrite Connect_eq, Hcl, (connect_fails env w err Hd).
  eexists _, _. split; [reflexivity|]. repeat split.
  by apply since_app.
Qed.

Lemma Connect_wraps_dial_error_witness :
  ∃ err' w',
    Connect refusingEnv freshWorld = (Some err', w') ∧
    Error err' = "failed to dial VM over vsock: connection refused" ∧
    Unwrap err' = Some (errors_New "connection refused") ∧
    since freshWorld w' = [EvDial 0%nat] ∧
    cm w' = cm freshWorld.
Proof.
  apply (Connect_wraps_dial_error refusingEnv freshWorld
           (errors_New "connection refused")); reflexivity.
Defined.

(** C5 (as stated) fails: the error [Connect] returns is not the error the
    dial produced. *)
Lemma Connect_error_not_verbatim :
  clients (cm freshWorld) = None ∧
  dialResult refusingEnv (dials freshWorld)
    = Some (errors_New "connection refused") ∧
  (Connect refusingEnv freshWorld).1 ≠ Some (errors_New "connection refused").
Proof. repeat split. discriminate. Qed.

(** C7: [MarkConnectionBroken] called while a bundle is stored clears the
    bundle with its transport, so that the next [GetClients] takes the
    reconnect path (and dials, when the retry count is not negative) and
    does not return the bundle that was stored; called while no bundle is
    stored it leaves the manager as it is and closes nothing. *)
Theorem MarkConnectionBroken_clears_bundle (env : Env) (w : World) :
  wellFormed w →
  (∀ cl, clients (cm w) = Some cl →
         let w1 := (MarkConnectionBroken w).2 in
         disconnected (cm w1) ∧
         GetClients env w1 = reconnectIfNeeded env w1 ∧
         (GetClients env w1).1.1 ≠ Some cl ∧
         (0 <= MaxRetries (config (cm w)) →
          (1 ≤ count isDial (since w1 (GetClients env w1).2))%nat)) ∧
  (clients (cm w) = None →
   cm (MarkConnectionBroken w).2 = cm w ∧
   since w (MarkConnectionBroken w).2 = [EvMarkConnectionBroken]).
Proof.
  intros Hwf. rewrite MarkConnectionBroken_eq. simpl. split.
  - intros cl Hcl. unfold brokenWorld. rewrite Hcl.
    match goal with |- context [GetClients env ?w0] => set (w1 := w0) end.
    split; [done|]. split; [by apply GetClients_slow|].
    destruct (GetClients env w1) as [r w'] eqn:Hrun. simpl.
    pose proof (GetClients_run env _ _ _ Hrun) as Hpost.
    destruct Hpost as (evs & Htr & _ & _ & _ & Hdl & _ & _ & Hr).
    split.
    + destruct r as [[cl'|] [e|]]; try done. simpl.
      destruct Hr as [_ [[Hcl' _] | [_ (n & Hn & ->)]]]; [done|].
      destruct Hwf as [_ Hwf]. rewrite Hcl in Hwf.
      destruct Hwf as (k & Hk & -> & _). simpl in Hn.
      intros [= Heq]. lia.
    + intros Hmax. rewrite GetClients_slow in Hrun by done.
      apply reconnectIfNeeded_dials in Hrun; [| done | apply Hwf | done].
      rewrite (since_app w1 w' evs Htr). lia.
  - intros Hcl. unfold brokenWorld. rewrite Hcl. simpl.
    split; [done|]. by apply since_app.
Qed.

Lemma MarkConnectionBroken_clears_bundle_witness :
  let w := (GetClients (failingEnv (errors_New "EOF")) freshWorld).2 in
  (let w1 := (MarkConnectionBroken w).2 in
   disconnected (cm w1) ∧
   GetClients refusingEnv w1 = reconnectIfNeeded refusingEnv w1 ∧
   (GetClients refusingEnv w1).1.1 ≠ Some (bundleOf 0%nat) ∧
   (1 ≤ count isDial (since w1 (GetClients refusingEnv w1).2))%nat) ∧
  (cm (MarkConnectionBroken freshWorld).2 = cm freshWorld ∧
   since freshWorld (MarkConnectionBroken freshWorld).2
     = [EvMarkConnectionBroken]).
Proof.
  split.
  - destruct (MarkConnectionBroken_clears_bundle refusingEnv
                (GetClients (failingEnv (errors_New "EOF")) freshWorld).2)
      as [H _].
    + split; [reflexivity|]. hnf. exists 0%nat. repeat split. simpl. lia.
    + destruct (H (bundleOf 0%nat)) as (H1 & H2 & H3 & H4);
        [vm_compute; reflexivity|].
      split; [exact H1|]. split; [exact H2|]. split; [exact H3|].
      apply H4. vm_compute. discriminate.
  - apply (MarkConnectionBroken_clears_bundle refusingEnv freshWorld).
    + split; [reflexivity|]. hnf. split; reflexivity.
    + reflexivity.
Defined.

(** ** The resilient clients *)

Lemma wrapper_eq (env : Env) (m : Method) (req : Request) :
  wrapper env m req = resilientCall env m (requestOf m req).
Proof. by destruct m. Qed.

Lemma invoke_eq (env : Env) (m : Method) (cl : AgentClients) (req : Request)
    (w : World) :
  invoke env m cl req w =
    (rpcResult env (calls w) m (clientOf m cl) req,
     {| cm := cm w; dials := dials w; waits := waits w; calls := S (calls w);
        trace := trace w ++ [EvCall m (clientOf m cl)] |}).
Proof. done. Qed.

(** The log of a [GetClients] followed by a remote call. *)
Lemma attempt_trace (env : Env) (m : Method) (req : Request)
    (w w1 w2 : World) (cl : AgentClients)
    (r : option Response * option error) :
  GetClients env w = ((Some cl, None), w1) →
  invoke env m cl req w1 = (r, w2) →
  ∃ evs, trace w2 = (trace w ++ evs)%list ∧
         count isMark evs = 0%nat ∧ count isCall evs = 1%nat.
Proof.
  intros Hget Hcall. apply GetClients_run in Hget.
  destruct Hget as (evs & Htr & Hc & Hm & _).
  rewrite invoke_eq in Hcall. injection Hcall as _ <-. simpl.
  exists (evs ++ [EvCall m (clientOf m cl)])%list.
  rewrite Htr, <- app_assoc, !count_app, Hc, Hm. done.
Qed.

(** C3: when the remote call fails with an error the classifier judges
    application-level, every wrapper method returns that error after this
    one call, without calling [MarkConnectionBroken]. *)
Theorem application_error_not_retried (env : Env) (m : Method)
    (req : Request) (w w1 w2 : World) (cl : AgentClients)
    (result : option Response) (err : error) :
  GetClients env w = ((Some cl, None), w1) →
  invoke env m cl (requestOf m req) w1 = ((result, Some err), w2) →
  isConnectionError (Some err) = false →
  wrapper env m req w = ((None, Some err), w2) ∧
  count isMark (since w w2) = 0%nat ∧
  count isCall (since w w2) = 1%nat.
Proof.
  intros Hget Hcall Hclass.
  destruct (attempt_trace env m _ w w1 w2 cl _ Hget Hcall)
    as (evs & Htr & Hm & Hc).
  rewrite (since_app w w2 evs Htr). split; [|done].
  rewrite wrapper_eq. unfold resilientCall, attemptBody at 1.
  unfold bind at 1. rewrite Hget. unfold bind at 1. rewrite Hcall.
  by rewrite Hclass.
Qed.

Lemma application_error_not_retried_witness :
  ∃ w2,
    wrapper (failingEnv (errors_New "task not found")) Task_Kill "req"
      freshWorld = ((None, Some (errors_New "task not found")), w2) ∧
    count isMark (since freshWorld w2) = 0%nat ∧
    count isCall (since freshWorld w2) = 1%nat.
Proof.
  eexists.
  eapply (application_error_not_retried
            (failingEnv (errors_New "task not found")) Task_Kill "req"
            freshWorld); reflexivity.
Defined.

(** C1: when the remote call fails with a connection-level error on the
    first attempt and again on the retry, every wrapper method calls
    [MarkConnectionBroken] once, makes these two calls and no third, and
    returns the error of the second. *)
Theorem connection_error_retried_once (env : Env) (m : Method)
    (req : Request) (w w1 w2 w3 w4 : World) (cl1 cl2 : AgentClients)
    (result1 result2 : option Response) (err1 err2 : error) :
  GetClients env w = ((Some cl1, None), w1) →
  invoke env m cl1 (requestOf m req) w1 = ((result1, Some err1), w2) →
  isConnectionError (Some err1) = true →
  GetClients env (MarkConnectionBroken w2).2 = ((Some cl2, None), w3) →
  invoke env m cl2 (requestOf m req) w3 = ((result2, Some err2), w4) →
  isConnectionError (Some err2) = true →
  wrapper env m req w = ((None, Some err2), w4) ∧
  count isMark (since w w4) = 1%nat ∧
  count isCall (since w w4) = 2%nat.
Proof.
  intros Hget1 Hcall1 Hclass1 Hget2 Hcall2 Hclass2.
  destruct (attempt_trace env m _ w w1 w2 cl1 _ Hget1 Hcall1)
    as (evs1 & Htr1 & Hm1 & Hc1).
  destruct (attempt_trace env m _ _ w3 w4 cl2 _ Hget2 Hcall2)
    as (evs2 & Htr2 & Hm2 & Hc2).
  split.
  - rewrite wrapper_eq. unfold resilientCall, attemptBody at 1.
    unfold bind at 1. rewrite Hget1. unfold bind at 1. rewrite Hcall1.
    rewrite Hclass1. change (true && (0 =? 0)) with true. cbv iota.
    unfold bind at 1. destruct (MarkConnectionBroken w2) as [[] w2'].
    simpl in Hget2. unfold attemptBody. unfold bind at 1. rewrite Hget2.
    unfold bind at 1. rewrite Hcall2. rewrite Hclass2. done.
  - rewrite MarkConnectionBroken_eq in Htr2. simpl in Htr2.
    assert (Hb : ∃ evs, trace (brokenWorld w2) = (trace w2 ++ evs)%list ∧
                        count isMark evs = 1%nat ∧ count isCall evs = 0%nat).
    { unfold brokenWorld. destruct (clients (cm w2)); simpl.
      - eexists. split; [done|]. simpl.
        rewrite !count_closeEvents by (by intros []). done.
      - eexists. split; [done|]. done. }
    destruct Hb as (evsb & Htrb & Hmb & Hcb).
    rewrite Htrb, Htr1, <- !app_assoc in Htr2.
    rewrite (since_app w w4 _ Htr2), !count_app. lia.
Qed.

Lemma connection_error_retried_once_witness :
  let env := failingEnv (errors_New "EOF") in
  wrapper env Task_State "req" freshWorld
    = ((None, Some (errors_New "EOF")),
       (wrapper env Task_State "req" freshWorld).2) ∧
  count isMark (since freshWorld (wrapper env Task_State "req" freshWorld).2)
    = 1%nat ∧
  count isCall (since freshWorld (wrapper env Task_State "req" freshWorld).2)
    = 2%nat.
Proof.
  intros env.
  pose (w1 := (GetClients env freshWorld).2).
  pose (w2 := (invoke env Task_State (bundleOf 0%nat) "req" w1).2).
  pose (w3 := (GetClients env (MarkConnectionBroken w2).2).2).
  pose (w4 := (invoke env Task_State (bundleOf 1%nat) "req" w3).2).
  assert (Hw : (wrapper env Task_State "req" freshWorld).2 = w4)
    by (vm_compute; reflexivity).
  rewrite Hw.
  apply (connection_error_retried_once env Task_State "req" freshWorld
           w1 w2 w3 w4 (bundleOf 0%nat) (bundleOf 1%nat) None None
           (errors_New "EOF") (errors_New "EOF"));
    vm_compute; reflexivity.
Defined.

(** The wrappers keep the manager in a state between operations. *)
Lemma invoke_wellFormed (env : Env) (m : Method) (cl : AgentClients)
    (req : Request) (w : World) :
  wellFormed w → wellFormed (invoke env m cl req w).2.
Proof. intros Hwf. rewrite invoke_eq. by apply (wellFormed_dials w). Qed.

Lemma attemptBody_wellFormed (env : Env) (m : Method) (req : Request)
    (attempt : Z) (continue : M (option Response * option error)) :
  (∀ w, wellFormed w → wellFormed (continue w).2) →
  ∀ w, wellFormed w → wellFormed (attemptBody env m req attempt continue w).2.
Proof.
  intros Hcont w Hwf. unfold attemptBody, bind at 1.
  destruct (GetClients env w) as [[cl err] w1] eqn:Hget.
  apply GetClients_wellFormed in Hget; [|done].
  destruct cl as [cl|], err as [err|]; try done.
  unfold bind at 1.
  pose proof (invoke_wellFormed env m cl req w1 Hget) as Hcall.
  destruct (invoke env m cl req w1) as [[result err] w2]. simpl in Hcall.
  destruct err as [err|]; [|done].
  destruct (isConnectionError (Some err) && (attempt =? 0)); [|done].
  unfold bind. rewrite MarkConnectionBroken_eq.
  by apply Hcont, MarkConnectionBroken_wellFormed.
Qed.

Lemma wrapper_wellFormed (env : Env) (m : Method) (req : Request)
    (w : World) :
  wellFormed w → wellFormed (wrapper env m req w).2.
Proof.
  rewrite wrapper_eq. unfold resilientCall.
  apply attemptBody_wellFormed. intros w1.
  apply attemptBody_wellFormed. done.
Qed.


(** * Further properties *)

(** ** The task ID translator *)

(** X1: whatever was registered before, a registration wins for its two
    IDs: the external ID translates to the internal one and back, and is a
    clone task. *)
Theorem register_last_write_wins (t : taskTranslator) (ext int : string) :
  TranslateToInternal (RegisterCloneMapping t ext int) ext = int ∧
  TranslateToExternal (RegisterCloneMapping t ext int) int = ext ∧
  IsCloneTask (RegisterCloneMapping t ext int) ext = true.
Proof.
  unfold TranslateToInternal, TranslateToExternal, IsCloneTask. simpl.
  by rewrite !lookup_insert_eq.
Qed.

(** X2: a registration changes nothing for other IDs: every other external
    ID translates and is classified as before, and so does every other
    internal ID. *)
Theorem register_other_ids_unchanged (t : taskTranslator)
    (ext int ext' int' : string) :
  (ext' ≠ ext →
   TranslateToInternal (RegisterCloneMapping t ext int) ext'
     = TranslateToInternal t ext' ∧
   IsCloneTask (RegisterCloneMapping t ext int) ext' = IsCloneTask t ext') ∧
  (int' ≠ int →
   TranslateToExternal (RegisterCloneMapping t ext int) int'
     = TranslateToExternal t int').
Proof.
  unfold TranslateToInternal, TranslateToExternal, IsCloneTask. simpl.
  split; intros Hne; rewrite ?lookup_insert_ne by done; done.
Qed.

Lemma register_other_ids_unchanged_witness :
  TranslateToInternal
    (RegisterCloneMapping NewTaskTranslator "ext1" "int1") "ext2" = "ext2" ∧
  IsCloneTask (RegisterCloneMapping NewTaskTranslator "ext1" "int1") "ext2"
    = false ∧
  TranslateToExternal
    (RegisterCloneMapping NewTaskTranslator "ext1" "int1") "int2" = "int2".
Proof.
  destruct (register_other_ids_unchanged NewTaskTranslator
              "ext1" "int1" "ext2" "int2") as [H1 H2].
  destruct H1 as [H1 H1']; [discriminate|].
  split; [exact H1|]. split; [exact H1'|]. apply H2. discriminate.
Defined.

(** X3: in a consistent translator the two translations undo each other on
    mapped IDs: a clone task's external ID comes back from its internal ID,
    and an internal ID with a reverse entry comes back from its external
    ID. *)
Theorem translate_round_trip (t : taskTranslator) (ext int : string) :
  consistent t →
  (IsCloneTask t ext = true →
   TranslateToExternal t (TranslateToInternal t ext) = ext) ∧
  (is_Some (internalToExternal t !! int) →
   TranslateToInternal t (TranslateToExternal t int) = int).
Proof.
  intros [Hei Hie].
  unfold TranslateToInternal, TranslateToExternal, IsCloneTask. split.
  - destruct (externalToInternal t !! ext) as [i|] eqn:He; [|done].
    intros _. by rewrite (Hei _ _ He).
  - intros [e Hi]. rewrite Hi. by rewrite (Hie _ _ Hi).
Qed.

Lemma translate_round_trip_witness :
  let t := RegisterCloneMapping NewTaskTranslator "ext1" "int1" in
  TranslateToExternal t (TranslateToInternal t "ext1") = "ext1" ∧
  TranslateToInternal t (TranslateToExternal t "int1") = "int1".
Proof.
  intros t.
  destruct (translate_round_trip t "ext1" "int1") as [H1 H2].
  - apply register_keeps_consistent;
      [apply NewTaskTranslator_consistent | apply noNewPartner_fresh].
  - split; [apply H1; reflexivity | apply H2; by eexists].
Defined.

(** X4: registrations never evict: an external ID that is a clone task stays
    one through any further run of registrations. *)
Theorem clone_task_never_evicted (l : list (string * string)) :
  ∀ t ext, IsCloneTask t ext = true → IsCloneTask (registerAll t l) ext = true.
Proof.
  induction l as [|[e i] l IH]; intros t ext Hclone; [done|].
  simpl. apply IH. revert Hclone. unfold IsCloneTask. simpl.
  rewrite lookup_insert. by case_decide.
Qed.

Lemma clone_task_never_evicted_witness :
  IsCloneTask
    (registerAll (RegisterCloneMapping NewTaskTranslator "ext1" "int1")
       [("ext2", "int2"); ("ext1", "int3")]) "ext1" = true.
Proof. apply clone_task_never_evicted. reflexivity. Defined.

(** X5: when the internal map sends [int] to [ext] (as it does after
    [ext] was registered with [int] and [int] with nothing since),
    registering [ext] with another internal ID [int'] leaves [int]
    translating to [ext], while [ext] now translates to [int']: the
    translations no longer undo each other from [int].  Nothing is assumed
    of the rest of the translator. *)
Theorem reregister_leaves_stale_reverse (t : taskTranslator)
    (ext int int' : string) :
  internalToExternal t !! int = Some ext → int' ≠ int →
  let t' := RegisterCloneMapping t ext int' in
  TranslateToExternal t' int = ext ∧
  TranslateToInternal t' ext = int' ∧
  TranslateToInternal t' (TranslateToExternal t' int) ≠ int.
Proof.
  intros Hi Hne t'.
  assert (H1 : TranslateToExternal t' int = ext).
  { unfold TranslateToExternal. simpl.
    rewrite lookup_insert_ne by done. by rewrite Hi. }
  assert (H2 : TranslateToInternal t' ext = int').
  { unfold TranslateToInternal. simpl. by rewrite lookup_insert_eq. }
  rewrite H1, H2. done.
Qed.

Lemma reregister_leaves_stale_reverse_witness :
  let t' := RegisterCloneMapping
              (RegisterCloneMapping NewTaskTranslator "ext1" "int1")
              "ext1" "int2" in
  TranslateToExternal t' "int1" = "ext1" ∧
  TranslateToInternal t' "ext1" = "int2" ∧
  TranslateToInternal t' (TranslateToExternal t' "int1") ≠ "int1".
Proof.
  apply (reregister_leaves_stale_reverse
           (RegisterCloneMapping NewTaskTranslator "ext1" "int1")
           "ext1" "int1" "int2").
  - reflexivity.
  - discriminate.
Defined.

(** X6: registering the same pair again changes nothing, and two
    registrations that share no ID can be made in either order. *)
Theorem register_idempotent_and_commutes (t : taskTranslator)
    (ext1 int1 ext2 int2 : string) :
  RegisterCloneMapping (RegisterCloneMapping t ext1 int1) ext1 int1
    = RegisterCloneMapping t ext1 int1 ∧
  (ext1 ≠ ext2 → int1 ≠ int2 →
   RegisterCloneMapping (RegisterCloneMapping t ext1 int1) ext2 int2
     = RegisterCloneMapping (RegisterCloneMapping t ext2 int2) ext1 int1).
Proof.
  unfold RegisterCloneMapping. simpl. split.
  - by rewrite !insert_insert_eq.
  - intros He Hi. f_equal; by apply insert_insert_ne.
Qed.

Lemma register_idempotent_and_commutes_witness :
  RegisterCloneMapping
    (RegisterCloneMapping NewTaskTranslator "ext1" "int1") "ext2" "int2"
  = RegisterCloneMapping
      (RegisterCloneMapping NewTaskTranslator "ext2" "int2") "ext1" "int1".
Proof.
  apply (register_idempotent_and_commutes NewTaskTranslator
           "ext1" "int1" "ext2" "int2"); discriminate.
Defined.

(** X7: [GetCloneMappings] lists exactly the clone tasks, each with the
    internal ID it translates to, and a registration shows in it as the one
    entry written. *)
Theorem GetCloneMappings_lists_clone_tasks (t : taskTranslator)
    (ext int : string) :
  (GetCloneMappings t !! ext = Some int ↔
   IsCloneTask t ext = true ∧ TranslateToInternal t ext = int) ∧
  GetCloneMappings (RegisterCloneMapping t ext int)
    = <[ext := int]> (GetCloneMappings t) ∧
  GetCloneMappings NewTaskTranslator = ∅.
Proof.
  rewrite !GetCloneMappings_copy.
  unfold IsCloneTask, TranslateToInternal. simpl. split; [|done].
  destruct (externalToInternal t !! ext) as [i|]; split.
  - by intros [= ->].
  - by intros [_ ->].
  - done.
  - by intros [? _].
Qed.

Lemma GetCloneMappings_lists_clone_tasks_witness :
  GetCloneMappings (RegisterCloneMapping NewTaskTranslator "ext1" "int1")
    !! "ext1" = Some "int1".
Proof.
  apply (GetCloneMappings_lists_clone_tasks
           (RegisterCloneMapping NewTaskTranslator "ext1" "int1")
           "ext1" "int1").
  split; reflexivity.
Defined.

(** ** The connection error classifier *)

Lemma substring_split (s : string) :
  ∀ n, (n ≤ String.length s)%nat →
       s = substring 0 n s +:+ slice_from n s.
Proof.
  unfold slice_from.
  induction s as [|c s IH]; intros [|n] Hn; simpl in *; try done; try lia.
  - by rewrite substring_whole.
  - change (String c s
            = String c (substring 0 n s
                        +:+ substring n (String.length s - n) s)).
    f_equal. apply IH. lia.
Qed.

Lemma patternMatches_true (errStr pattern : string) :
  patternMatches errStr pattern = true ↔
  pattern ≠ "" ∧ endsWith errStr pattern.
Proof.
  split; [|intros [? ?]; by apply patternMatches_endsWith].
  unfold patternMatches. rewrite !andb_true_iff.
  intros [[[_ Hp] Hle] Heq].
  apply Nat.ltb_lt in Hp. apply Nat.leb_le in Hle.
  apply String.eqb_eq in Heq. split.
  - intros ->. simpl in Hp. lia.
  - exists (substring 0 (String.length errStr - String.length pattern) errStr).
    rewrite <- Heq at 2. apply substring_split. lia.
Qed.

Lemma anyPatternMatches_true (errStr : string) (patterns : list string) :
  anyPatternMatches errStr patterns = true ↔
  ∃ pattern, In pattern patterns ∧ pattern ≠ "" ∧ endsWith errStr pattern.
Proof.
  split; [|apply anyPatternMatches_endsWith].
  induction patterns as [|q patterns IH]; simpl; [done|].
  destruct (patternMatches errStr q) eqn:Hq.
  - intros _. apply patternMatches_true in Hq. exists q. tauto.
  - intros H. destruct (IH H) as (p & Hin & Hp). exists p. tauto.
Qed.

Lemma isConnectionCode_true (c : codes.Code) :
  isConnectionCode c = true ↔
  c = codes.Unavailable ∨ c = codes.DeadlineExceeded ∨ c = codes.Canceled.
Proof.
  split; [destruct c; simpl; intros; try discriminate; tauto|].
  by intros [-> | [-> | ->]].
Qed.

(** X8: what the classifier accepts, in full.  An error that is a
    [net.Error] is connection-level exactly when it is a timeout or
    temporary; any other error exactly when it carries one of the three
    gRPC codes or its text ends with one of the patterns. *)
Theorem isConnectionError_characterized (err : error) :
  isConnectionError (Some err) = true ↔
  match asNetError err with
  | Some netErr => Timeout netErr = true ∨ Temporary netErr = true
  | None =>
      (∃ c, grpcStatus err = Some c ∧
            (c = codes.Unavailable ∨ c = codes.DeadlineExceeded
             ∨ c = codes.Canceled)) ∨
      (∃ pattern, In pattern connectionErrorPatterns ∧
                  endsWith (Error err) pattern)
  end.
Proof.
  unfold isConnectionError.
  destruct (asNetError err) as [netErr|]; [apply orb_true_iff|].
  assert (Hpat : anyPatternMatches (Error err) connectionErrorPatterns = true
                 ↔ ∃ pattern, In pattern connectionErrorPatterns ∧
                              endsWith (Error err) pattern).
  { rewrite anyPatternMatches_true. split.
    - intros (p & Hin & _ & Hend). eauto.
    - intros (p & Hin & Hend). exists p.
      auto using connectionErrorPatterns_nonempty. }
  destruct (grpcStatus err) as [c|].
  - destruct (isConnectionCode c) eqn:Hc.
    + split; [|done]. intros _. left. exists c.
      by apply isConnectionCode_true in Hc.
    + rewrite Hpat. split; [tauto|]. intros [(c' & [= <-] & Hc') | H]; [|done].
      apply isConnectionCode_true in Hc'. congruence.
  - rewrite Hpat. split; [tauto|]. by intros [(c & ? & _) | H].
Qed.

Lemma isConnectionError_characterized_witness :
  isConnectionError (Some (errors_New "read unix: connection reset")) = true.
Proof.
  apply (isConnectionError_characterized
           (errors_New "read unix: connection reset")).
  right. exists "connection reset". split; [simpl; tauto|].
  by exists "read unix: ".
Defined.

(** X9: the error [Connect] returns for a failed dial is connection-level
    whenever the text of the dial error ends with one of the patterns, also
    when the dial error itself is a [net.Error] the classifier rejects: the
    wrapper added by [connect] is no [net.Error] and keeps the ending. *)
Theorem Connect_error_is_connection_level (env : Env) (w : World)
    (err : error) (pattern : string) :
  clients (cm w) = None → dialResult env (dials w) = Some err →
  In pattern connectionErrorPatterns → endsWith (Error err) pattern →
  isConnectionError (Connect env w).1 = true.
Proof.
  intros Hcl Hd Hin [front Hend].
  rewrite Connect_eq, Hcl, (connect_fails env w err Hd). cbn [fst].
  apply isConnectionError_suffix with (pattern := pattern); [done | done |].
  exists ("failed to dial VM over vsock: " +:+ front).
  cbn [Error fmt_Errorf_w]. rewrite Hend.
  generalize "failed to dial VM over vsock: ". clear.
  intros s. induction s as [|c s IH]; [done|].
  change (String c (s +:+ front +:+ pattern)
          = String c ((s +:+ front) +:+ pattern)).
  by rewrite IH.
Qed.

Lemma Connect_error_is_connection_level_witness :
  let env := {| dialResult := fun _ => Some brokenPipeOpError;
                ctxDone := fun _ => None;
                rpcResult := fun _ _ _ _ => (None, None) |} in
  isConnectionError (Some brokenPipeOpError) = false ∧
  isConnectionError (Connect env freshWorld).1 = true.
Proof.
  intros env. split; [reflexivity|].
  apply (Connect_error_is_connection_level env freshWorld brokenPipeOpError
           "broken pipe").
  - reflexivity.
  - reflexivity.
  - simpl. tauto.
  - by exists "write unix @->firecracker.vsock: write: ".
Defined.

(** ** The connection manager *)

Lemma connectedTo_cleared (n : nat) (c : ConnectionManager) :
  connectedTo n (cleared c) = connectedTo n c.
Proof. done. Qed.

Lemma reconnectLoop_succeeds (env : Env) (k : nat) :
  ∀ fuel attempt backoff w,
    0 <= attempt →
    attempt + Z.of_nat k <= MaxRetries (config (cm w)) →
    MaxRetries (config (cm w)) < max_int64 →
    (k < fuel)%nat →
    (∀ j, (j < k)%nat → dialResult env (dials w + j) ≠ None) →
    dialResult env (dials w + k) = None →
    (∀ j, (j < k + (if (0 <? attempt)%Z then 1 else 0))%nat →
          ctxDone env (waits w + j) = None) →
    ∃ w', reconnectLoop env fuel attempt backoff w
          = ((Some (bundleOf (dials w + k)%nat), None), w') ∧
          dials w' = S (dials w + k) ∧
          calls w' = calls w ∧
          cm w' = connectedTo (dials w + k)%nat (cm w).
Proof.
  induction k as [|k IH];
    intros fuel attempt backoff w Ha Hk Hmax Hfuel Hfail Hok Hctx;
    (destruct fuel as [|fuel]; [lia|]); rewrite reconnectLoop_step;
    (destruct (Z.leb_spec attempt (MaxRetries (config (cm w)))); [|lia]).
  - rewrite Nat.add_0_r in *.
    destruct (Z.ltb_spec 0 attempt).
    + pose proof (Hctx 0%nat ltac:(lia)) as Hc. rewrite Nat.add_0_r in Hc.
      rewrite Hc, Hok. eexists. split; [reflexivity|]. done.
    + rewrite Hok. eexists. split; [reflexivity|]. done.
  - assert (Hw : wrap64 (attempt + 1) = attempt + 1).
    { apply wrap64_small. unfold min_int64, max_int64 in *. lia. }
    rewrite Hw.
    assert (Hnext : (0 <? attempt + 1) = true) by (apply Z.ltb_lt; lia).
    pose proof (Hfail 0%nat ltac:(lia)) as Hd0. rewrite Nat.add_0_r in Hd0.
    destruct (dialResult env (dials w)) as [e|] eqn:Hd; [clear Hd0|done].
    destruct (Z.ltb_spec 0 attempt).
    + pose proof (Hctx 0%nat ltac:(lia)) as Hc. rewrite Nat.add_0_r in Hc.
      rewrite Hc.
      destruct (IH fuel (attempt + 1)
                  (increaseBackoff (config (cm w)) backoff)
                  (failedDialWorld (waitedWorld backoff w)))
        as (w' & Hrun & Hdl & Hca & Hcm);
        cbn [failedDialWorld waitedWorld cm dials waits cleared set_clients
             set_conn set_rpcClient config]; try lia.
      * intros j Hj. rewrite Nat.add_succ_comm. apply Hfail. lia.
      * by rewrite Nat.add_succ_comm.
      * intros j Hj. rewrite Hnext in Hj. rewrite Nat.add_succ_comm.
        apply Hctx. lia.
      * exists w'. rewrite Hrun.
        cbn [failedDialWorld waitedWorld cm dials calls] in *.
        rewrite !Nat.add_succ_comm in *. done.
    + destruct (IH fuel (attempt + 1) backoff (failedDialWorld w))
        as (w' & Hrun & Hdl & Hca & Hcm);
        cbn [failedDialWorld cm dials waits cleared set_clients
             set_conn set_rpcClient config]; try lia.
      * intros j Hj. rewrite Nat.add_succ_comm. apply Hfail. lia.
      * by rewrite Nat.add_succ_comm.
      * intros j Hj. rewrite Hnext in Hj. apply Hctx. lia.
      * exists w'. rewrite Hrun.
        cbn [failedDialWorld cm dials calls] in *.
        rewrite !Nat.add_succ_comm in *. done.
Qed.

Lemma reconnectLoop_cancelled (env : Env) (err : error) (j : nat) :
  ∀ fuel attempt backoff w,
    0 < attempt →
    attempt + Z.of_nat j <= MaxRetries (config (cm w)) →
    MaxRetries (config (cm w)) < max_int64 →
    (j < fuel)%nat →
    (∀ i, (i < j)%nat → dialResult env (dials w + i) ≠ None) →
    (∀ i, (i < j)%nat → ctxDone env (waits w + i) = None) →
    ctxDone env (waits w + j) = Some err →
    ∃ w', reconnectLoop env fuel attempt backoff w
          = ((None, Some err), w') ∧
          dials w' = (dials w + j)%nat ∧
          (cm w' = cm w ∨ cm w' = cleared (cm w)).
Proof.
  induction j as [|j IH];
    intros fuel attempt backoff w Ha Hj Hmax Hfuel Hfail Hctx Hdone;
    (destruct fuel as [|fuel]; [lia|]); rewrite reconnectLoop_step;
    (destruct (Z.leb_spec attempt (MaxRetries (config (cm w)))); [|lia]);
    (destruct (Z.ltb_spec 0 attempt); [|lia]).
  - rewrite Nat.add_0_r in *. rewrite Hdone.
    eexists. split; [reflexivity|]. cbn [waitedWorld dials cm]. auto with lia.
  - assert (Hw : wrap64 (attempt + 1) = attempt + 1).
    { apply wrap64_small. unfold min_int64, max_int64 in *. lia. }
    rewrite Hw.
    pose proof (Hctx 0%nat ltac:(lia)) as Hc. rewrite Nat.add_0_r in Hc.
    rewrite Hc.
    pose proof (Hfail 0%nat ltac:(lia)) as Hd0. rewrite Nat.add_0_r in Hd0.
    destruct (dialResult env (dials w)) as [e|] eqn:Hd; [clear Hd0|done].
    destruct (IH fuel (attempt + 1)
                (increaseBackoff (config (cm w)) backoff)
                (failedDialWorld (waitedWorld backoff w)))
      as (w' & Hrun & Hdl & Hcm);
      cbn [failedDialWorld waitedWorld cm dials waits cleared set_clients
           set_conn set_rpcClient config]; try lia.
    + intros i Hi. rewrite Nat.add_succ_comm. apply Hfail. lia.
    + intros i Hi. rewrite Nat.add_succ_comm. apply Hctx. lia.
    + by rewrite Nat.add_succ_comm.
    + exists w'. rewrite Hrun.
      cbn [failedDialWorld waitedWorld cm dials] in *.
      split; [done|]. split; [lia|]. right.
      destruct Hcm as [-> | ->]; done.
Qed.

(** The first iteration of the loop as [reconnectIfNeeded] enters it, when
    its dial fails. *)
Lemma reconnectIfNeeded_first_failure (env : Env) (w : World) :
  clients (cm w) = None → connecting (cm w) = false →
  0 <= MaxRetries (config (cm w)) → dialResult env (dials w) ≠ None →
  reconnectIfNeeded env w =
    let (r, w1) :=
      reconnectLoop env (Z.to_nat (MaxRetries (config (cm w)))) 1
        (InitialBackoff (config (cm w)))
        (failedDialWorld (withConnecting true w)) in
    (r, withConnecting false w1).
Proof.
  intros Hcl Hcg Hmax Hd. rewrite reconnectIfNeeded_slow by done.
  replace (Z.to_nat (MaxRetries (config (cm w)) + 1))
    with (S (Z.to_nat (MaxRetries (config (cm w))))) by lia.
  rewrite reconnectLoop_step. change (0 <? 0) with false.
  change (wrap64 (0 + 1)) with 1.
  cbn [withConnecting cm dials set_connecting config].
  destruct (Z.leb_spec 0 (MaxRetries (config (cm w)))); [|lia].
  by destruct (dialResult env (dials w)).
Qed.

(** X10: when a backoff wait is cut short by the context, [GetClients]
    returns the context's error as it is, dials no more, and leaves the
    manager without transport and bundle and with the [connecting] flag
    down. *)
Theorem GetClients_cancelled_during_backoff (env : Env) (w : World)
    (j : nat) (err : error) :
  clients (cm w) = None → connecting (cm w) = false →
  Z.of_nat j < MaxRetries (config (cm w)) < max_int64 →
  (∀ i, (i ≤ j)%nat → dialResult env (dials w + i) ≠ None) →
  (∀ i, (i < j)%nat → ctxDone env (waits w + i) = None) →
  ctxDone env (waits w + j) = Some err →
  ∃ w', GetClients env w = ((None, Some err), w') ∧
        count isDial (since w w') = S j ∧
        disconnected (cm w') ∧ connecting (cm w') = false.
Proof.
  intros Hcl Hcg Hmax Hfail Hctx Hdone.
  pose proof (Hfail 0%nat ltac:(lia)) as Hd0. rewrite Nat.add_0_r in Hd0.
  destruct (GetClients env w) as [r w'] eqn:Hget.
  pose proof (GetClients_run env _ _ _ Hget) as Hpost.
  destruct Hpost as (evs & Htr & _ & _ & _ & Hdl & _).
  rewrite GetClients_slow, reconnectIfNeeded_first_failure in Hget
    by (done || lia).
  destruct (reconnectLoop_cancelled env err j
              (Z.to_nat (MaxRetries (config (cm w)))) 1
              (InitialBackoff (config (cm w)))
              (failedDialWorld (withConnecting true w)))
    as (w1 & Hrun & Hdl1 & Hcm);
    cbn [failedDialWorld withConnecting cm dials waits cleared set_clients
         set_conn set_rpcClient set_connecting config]; try lia.
  { intros i Hi. rewrite Nat.add_succ_comm. apply Hfail. lia. }
  { done. }
  { done. }
  rewrite Hrun in Hget. injection Hget as <- <-.
  exists (withConnecting false w1). split; [done|].
  cbn [failedDialWorld withConnecting cm dials] in *.
  split; [rewrite (since_app _ _ _ Htr); lia|].
  destruct Hcm as [-> | ->]; done.
Qed.

Lemma GetClients_cancelled_during_backoff_witness :
  let env := {| dialResult := fun _ => Some (errors_New "connection refused");
                ctxDone := fun n => if (n =? 1)%nat
                                    then Some context.Canceled else None;
                rpcResult := fun _ _ _ _ => (None, None) |} in
  ∃ w', GetClients env freshWorld = ((None, Some context.Canceled), w') ∧
        count isDial (since freshWorld w') = 2%nat ∧
        disconnected (cm w') ∧ connecting (cm w') = false.
Proof.
  intros env.
  apply (GetClients_cancelled_during_backoff env freshWorld 1
           context.Canceled).
  - reflexivity.
  - reflexivity.
  - vm_compute. split; reflexivity.
  - discriminate.
  - intros i Hi. assert (i = 0%nat) as -> by lia. reflexivity.
  - reflexivity.
Defined.

(** X11: when the first [k] dials fail and the next one succeeds (and no
    wait is cut short), [GetClients] returns the bundle of that dial after
    [k + 1] dials, stores it with its transport, and lowers the
    [connecting] flag. *)
Theorem GetClients_succeeds_after_failures (env : Env) (w : World)
    (k : nat) :
  clients (cm w) = None → connecting (cm w) = false →
  Z.of_nat k <= MaxRetries (config (cm w)) < max_int64 →
  (∀ i, (i < k)%nat → dialResult env (dials w + i) ≠ None) →
  dialResult env (dials w + k) = None →
  (∀ i, (i < k)%nat → ctxDone env (waits w + i) = None) →
  ∃ w', GetClients env w = ((Some (bundleOf (dials w + k)%nat), None), w') ∧
        count isDial (since w w') = S k ∧
        clients (cm w') = Some (bundleOf (dials w + k)%nat) ∧
        conn (cm w') = Some (dials w + k)%nat ∧
        rpcClient (cm w') = Some (dials w + k)%nat ∧
        connecting (cm w') = false.
Proof.
  intros Hcl Hcg Hmax Hfail Hok Hctx.
  destruct (GetClients env w) as [r w'] eqn:Hget.
  pose proof (GetClients_run env _ _ _ Hget) as Hpost.
  destruct Hpost as (evs & Htr & _ & _ & _ & Hdl & _).
  rewrite GetClients_slow, reconnectIfNeeded_slow in Hget by done.
  destruct (reconnectLoop_succeeds env k
              (Z.to_nat (MaxRetries (config (cm w)) + 1)) 0
              (InitialBackoff (config (cm w))) (withConnecting true w))
    as (w1 & Hrun & Hdl1 & _ & Hcm);
    cbn [withConnecting cm dials waits set_connecting config];
    try lia; try done.
  { intros i Hi. apply Hctx. cbn in Hi. lia. }
  rewrite Hrun in Hget. injection Hget as <- <-.
  exists (withConnecting false w1). split; [done|].
  cbn [withConnecting cm dials] in *.
  split; [rewrite (since_app _ _ _ Htr); lia|].
  rewrite Hcm. done.
Qed.

Lemma GetClients_succeeds_after_failures_witness :
  let env := {| dialResult := fun n => if (n <? 2)%nat
                                       then Some (errors_New "EOF") else None;
                ctxDone := fun _ => None;
                rpcResult := fun _ _ _ _ => (None, None) |} in
  ∃ w', GetClients env freshWorld = ((Some (bundleOf 2%nat), None), w') ∧
        count isDial (since freshWorld w') = 3%nat ∧
        clients (cm w') = Some (bundleOf 2%nat) ∧
        conn (cm w') = Some 2%nat ∧
        rpcClient (cm w') = Some 2%nat ∧
        connecting (cm w') = false.
Proof.
  intros env.
  apply (GetClients_succeeds_after_failures env freshWorld 2).
  - reflexivity.
  - reflexivity.
  - vm_compute. split; [discriminate | reflexivity].
  - intros i Hi. assert (i = 0 ∨ i = 1)%nat as [-> | ->] by lia; discriminate.
  - reflexivity.
  - reflexivity.
Defined.

(** X12: once [Connect] has returned nil the bundle is stored: [GetClients]
    returns it and a second [Connect] returns nil, both without dialling or
    changing anything, whatever the peer does by then; and the [Connect]
    itself dialled at most once. *)
Theorem Connect_success_is_stored (env env' : Env) (w w' : World) :
  Connect env w = (None, w') →
  ∃ cl, clients (cm w') = Some cl ∧
        GetClients env' w' = ((Some cl, None), w') ∧
        Connect env' w' = (None, w') ∧
        (count isDial (since w w') ≤ 1)%nat.
Proof.
  rewrite Connect_eq. destruct (clients (cm w)) as [cl|] eqn:Hcl.
  - intros [= <-]. exists cl. split; [done|].
    split; [by apply GetClients_fast|]. split; [by rewrite Connect_eq, Hcl|].
    unfold since. rewrite drop_all. cbn [count]. lia.
  - destruct (dialResult env (dials w)) as [e|] eqn:Hd.
    + by rewrite (connect_fails env w e Hd).
    + rewrite (connect_succeeds env w Hd). intros [= <-].
      exists (bundleOf (dials w)). split; [done|].
      split; [by apply GetClients_fast|]. split; [by rewrite Connect_eq|].
      unfold since. cbn [trace]. rewrite drop_app_length.
      cbn [count isDial]. lia.
Qed.

Lemma Connect_success_is_stored_witness :
  ∃ cl, clients (cm (Connect (failingEnv (errors_New "EOF")) freshWorld).2)
        = Some cl ∧
        GetClients refusingEnv
          (Connect (failingEnv (errors_New "EOF")) freshWorld).2
        = ((Some cl, None),
           (Connect (failingEnv (errors_New "EOF")) freshWorld).2) ∧
        Connect refusingEnv
          (Connect (failingEnv (errors_New "EOF")) freshWorld).2
        = (None, (Connect (failingEnv (errors_New "EOF")) freshWorld).2) ∧
        (count isDial
           (since freshWorld
              (Connect (failingEnv (errors_New "EOF")) freshWorld).2)
         ≤ 1)%nat.
Proof.
  apply (Connect_success_is_stored (failingEnv (errors_New "EOF"))
           refusingEnv freshWorld).
  reflexivity.
Defined.



(** X14: after [Close] the manager can be used again: from a state between
    operations and with a retry count that is not negative, the next
    [GetClients] takes the reconnect path and dials, and what it returns is
    never the bundle that was stored before the [Close]. *)
Theorem Close_then_GetClients_reconnects (env : Env) (w : World) :
  wellFormed w → 0 <= MaxRetries (config (cm w)) →
  GetClients env (Close w).2 = reconnectIfNeeded env (Close w).2 ∧
  (1 ≤ count isDial (since (Close w).2 (GetClients env (Close w).2).2))%nat ∧
  (∀ cl, clients (cm w) = Some cl →
         (GetClients env (Close w).2).1.1 ≠ Some cl).
Proof.
  intros Hwf Hmax. rewrite Close_eq. cbn [snd].
  match goal with |- context [GetClients env ?w0] => set (w1 := w0) end.
  assert (Hslow : GetClients env w1 = reconnectIfNeeded env w1)
    by (by apply GetClients_slow).
  split; [done|].
  destruct (GetClients env w1) as [r w'] eqn:Hrun. cbn [fst snd].
  pose proof (GetClients_run env _ _ _ Hrun) as Hpost.
  destruct Hpost as (evs & Htr & _ & _ & _ & Hdl & _ & _ & Hr).
  split.
  - symmetry in Hslow.
    apply reconnectIfNeeded_dials in Hslow; [| done | apply Hwf | done].
    rewrite (since_app w1 w' evs Htr). lia.
  - intros cl Hcl. destruct r as [[cl'|] [e|]]; try done. cbn [fst].
    destruct Hr as [_ [[Hcl' _] | [_ (n & Hn & ->)]]]; [done|].
    destruct Hwf as [_ Hwf]. rewrite Hcl in Hwf.
    destruct Hwf as (k & Hk & -> & _). cbn [w1 dials] in Hn.
    intros [= Heq]. lia.
Qed.

Lemma Close_then_GetClients_reconnects_witness :
  let w := (GetClients (failingEnv (errors_New "EOF")) freshWorld).2 in
  GetClients refusingEnv (Close w).2 = reconnectIfNeeded refusingEnv (Close w).2
  ∧ (1 ≤ count isDial
           (since (Close w).2 (GetClients refusingEnv (Close w).2).2))%nat
  ∧ (GetClients refusingEnv (Close w).2).1.1 ≠ Some (bundleOf 0%nat).
Proof.
  intros w.
  destruct (Close_then_GetClients_reconnects refusingEnv w) as (H1 & H2 & H3).
  - split; [reflexivity|]. hnf. exists 0%nat. repeat split. vm_compute. lia.
  - vm_compute. discriminate.
  - split; [exact H1|]. split; [exact H2|]. apply H3. reflexivity.
Defined.

(** X15: the manager starts in, and every operation keeps it in, a state
    where the [connecting] flag is down and the bundle, the RPC client and
    the transport are there together or not at all: [Connect],
    [GetClients], [MarkConnectionBroken], [Close] and every wrapper
    method. *)
Theorem operations_keep_wellFormed (env : Env) (w : World) :
  wellFormed w →
  wellFormed (Connect env w).2 ∧
  wellFormed (GetClients env w).2 ∧
  wellFormed (MarkConnectionBroken w).2 ∧
  wellFormed (Close w).2 ∧
  (∀ m req, wellFormed (wrapper env m req w).2).
Proof.
  intros Hwf. split_and!.
  - destruct (Connect env w) as [e w'] eqn:H. by eapply Connect_wellFormed.
  - destruct (GetClients env w) as [r w'] eqn:H.
    by eapply GetClients_wellFormed.
  - rewrite MarkConnectionBroken_eq. by apply MarkConnectionBroken_wellFormed.
  - by apply Close_wellFormed.
  - intros m req. by apply wrapper_wellFormed.
Qed.

Lemma operations_keep_wellFormed_witness :
  wellFormed freshWorld ∧
  wellFormed (Connect refusingEnv freshWorld).2 ∧
  wellFormed (GetClients refusingEnv freshWorld).2 ∧
  wellFormed (MarkConnectionBroken freshWorld).2 ∧
  wellFormed (Close freshWorld).2 ∧
  (∀ m req, wellFormed (wrapper refusingEnv m req freshWorld).2).
Proof.
  split; [apply wellFormed_new|].
  apply (operations_keep_wellFormed refusingEnv freshWorld).
  split; [reflexivity|]. hnf. split; reflexivity.
Defined.

(** X16: what [GetClients] returns agrees with what it leaves stored: from a
    state between operations, a returned bundle is the stored one, with its
    transport in place, and a returned error comes with a manager that has
    neither transport nor bundle; it never returns both or neither. *)
Theorem GetClients_result_matches_state (env : Env) (w w' : World)
    (r : option AgentClients * option error) :
  wellFormed w → GetClients env w = (r, w') →
  match r with
  | (Some cl, None) =>
      clients (cm w') = Some cl ∧
      is_Some (conn (cm w')) ∧ is_Some (rpcClient (cm w'))
  | (None, Some _) => disconnected (cm w')
  | _ => False
  end.
Proof.
  intros Hwf Hrun.
  pose proof (GetClients_wellFormed env _ _ _ Hwf Hrun) as [_ Hwf'].
  apply GetClients_run in Hrun.
  destruct Hrun as (evs & _ & _ & _ & _ & _ & _ & _ & Hr).
  destruct r as [[cl|] [e|]]; try done.
  - destruct Hr as [Hcl _]. rewrite Hcl in Hwf'.
    destruct Hwf' as (n & _ & _ & -> & ->). by eauto.
  - destruct Hr as [_ Hcl]. rewrite Hcl in Hwf'. by destruct Hwf'.
Qed.

Lemma GetClients_result_matches_state_witness :
  disconnected (cm (GetClients refusingEnv freshWorld).2).
Proof.
  apply (GetClients_result_matches_state refusingEnv freshWorld
           (GetClients refusingEnv freshWorld).2
           (None, Some (attemptsExhausted (config (cm freshWorld))))).
  - split; [reflexivity|]. hnf. split; reflexivity.
  - vm_compute. reflexivity.
Defined.

(** X29: for every configuration, the first backoff delay of a call of
    [GetClients] is [InitialBackoff] as configured, capped or not, and every
    later delay is at most [MaxBackoff]. *)
Theorem later_backoff_delays_capped (env : Env) (w : World) :
  match backoffDelays (since w (GetClients env w).2) with
  | [] => True
  | first :: rest =>
      first = InitialBackoff (config (cm w)) ∧
      Forall (fun d => d <= MaxBackoff (config (cm w))) rest
  end.
Proof.
  destruct (clients (cm w)) as [cl|] eqn:Hcl.
  { rewrite (GetClients_fast env w cl Hcl). unfold since. cbn [snd].
    by rewrite drop_all. }
  rewrite GetClients_slow by done.
  destruct (connecting (cm w)) eqn:Hcg.
  { rewrite reconnectIfNeeded_contended by done. unfold since.
    cbn [snd trace]. by rewrite drop_app_length. }
  rewrite reconnectIfNeeded_slow by done.
  destruct (reconnectLoop env _ 0 _ (withConnecting true w))
    as [r w1] eqn:Hrun.
  apply reconnectLoop_later_delays in Hrun.
  destruct Hrun as (evs & Htr & Hds). cbn [snd].
  cbn [withConnecting trace cm set_connecting config] in *.
  rewrite (since_app w (withConnecting false w1) evs Htr).
  by destruct Hds as [-> | (rest & -> & Hrest)].
Qed.

(** X30: with a negative retry count [GetClients] cannot connect: it dials
    not even once, changes nothing and reports the attempts as exhausted,
    naming [MaxRetries + 1] (zero or a negative number) as their count. *)
Theorem GetClients_negative_retries (env : Env) (w : World) :
  clients (cm w) = None → connecting (cm w) = false →
  min_int64 <= MaxRetries (config (cm w)) + 1 →
  MaxRetries (config (cm w)) < 0 →
  ∃ w',
    GetClients env w =
      ((None,
        Some (errors_New
                ("failed to establish vsock connection after "
                 +:+ pretty (MaxRetries (config (cm w)) + 1)
                 +:+ " attempts"))), w') ∧
    since w w' = [] ∧ cm w' = cm w ∧ dials w' = dials w.
Proof.
  intros Hcl Hcg Hmin Hneg.
  rewrite GetClients_slow, reconnectIfNeeded_slow by done.
  replace (Z.to_nat (MaxRetries (config (cm w)) + 1)) with 0%nat by lia.
  cbn [reconnectLoop]. unfold bind, getCM, ret.
  cbn [withConnecting cm set_connecting config].
  eexists. split.
  { unfold attemptsExhausted. rewrite wrap64_small; [reflexivity|].
    unfold min_int64, max_int64 in *. lia. }
  cbn [withConnecting cm trace dials]. split; [|split; [|done]].
  - unfold since. by rewrite drop_all.
  - destruct (cm w); cbn in *. by subst.
Qed.

Lemma GetClients_negative_retries_witness :
  let cfg := {| MaxRetries := -1;
                InitialBackoff := 100 * time.Millisecond;
                MaxBackoff := 5 * time.Second;
                BackoffFactor := 2%float;
                ConnectTimeout := 1 * time.Second |} in
  ∃ w',
    GetClients (failingEnv (errors_New "EOF")) (worldOf cfg) =
      ((None,
        Some (errors_New
                "failed to establish vsock connection after 0 attempts")),
       w') ∧
    since (worldOf cfg) w' = [] ∧ cm w' = cm (worldOf cfg) ∧
    dials w' = dials (worldOf cfg).
Proof.
  intros cfg.
  apply (GetClients_negative_retries (failingEnv (errors_New "EOF"))
           (worldOf cfg)).
  - reflexivity.
  - reflexivity.
  - vm_compute. discriminate.
  - reflexivity.
Defined.

(** ** The resilient clients *)

(** What [MarkConnectionBroken] logs. *)
Lemma brokenWorld_trace (w : World) :
  ∃ evs, trace (brokenWorld w) = (trace w ++ evs)%list ∧
         count isMark evs = 1%nat ∧ count isCall evs = 0%nat ∧
         count isDial evs = 0%nat ∧
         dials (brokenWorld w) = dials w ∧
         config (cm (brokenWorld w)) = config (cm w).
Proof.
  unfold brokenWorld. destruct (clients (cm w)); cbn [trace dials cm].
  - eexists. split; [done|]. cbn [count isMark isCall isDial].
    rewrite !count_closeEvents by (by intros []). done.
  - eexists. split; [done|]. done.
Qed.

(** One iteration of the loop of a wrapper method either ends the method
    within this attempt, after at most one remote call and without
    [MarkConnectionBroken], or (on attempt 0 only) goes on to the rest of
    the loop after one remote call and one [MarkConnectionBroken]. *)
Lemma attemptBody_run (env : Env) (m : Method) (req : Request) (attempt : Z)
    (continue : M (option Response * option error)) (w w' : World)
    (r : option Response * option error) :
  attemptBody env m req attempt continue w = (r, w') →
  (∃ evs, trace w' = (trace w ++ evs)%list ∧
          (count isCall evs ≤ 1)%nat ∧ count isMark evs = 0%nat ∧
          (count isDial evs ≤ Z.to_nat (MaxRetries (config (cm w)) + 1))%nat ∧
          (r.2 ≠ None → r.1 = None)) ∨
  (attempt = 0 ∧
   ∃ w2 evs, trace w2 = (trace w ++ evs)%list ∧
             count isCall evs = 1%nat ∧ count isMark evs = 1%nat ∧
             (count isDial evs
              ≤ Z.to_nat (MaxRetries (config (cm w)) + 1))%nat ∧
             config (cm w2) = config (cm w) ∧
             continue w2 = (r, w')).
Proof.
  unfold attemptBody, bind at 1, ret.
  destruct (GetClients env w) as [[cl err] w1] eqn:Hget.
  apply GetClients_run in Hget.
  destruct Hget as (evs1 & Htr1 & Hc1 & Hm1 & Hd1 & _ & _ & Hcfg1 & Hr1).
  destruct cl as [cl|], err as [err|]; try done.
  - unfold bind at 1. rewrite invoke_eq.
    destruct (rpcResult env (calls w1) m (clientOf m cl) req)
      as [result [err|]].
    + destruct (isConnectionError (Some err) && (attempt =? 0)) eqn:Hretry.
      * apply andb_true_iff in Hretry as [_ Ha]. apply Z.eqb_eq in Ha.
        unfold bind at 1. rewrite MarkConnectionBroken_eq.
        match goal with |- continue (brokenWorld ?w0) = _ → _ =>
          set (w2 := w0) end.
        intros Hcont. right. split; [done|].
        destruct (brokenWorld_trace w2)
          as (evsb & Htrb & Hmb & Hcb & Hdb & _ & Hcfgb).
        exists (brokenWorld w2),
          (evs1 ++ [EvCall m (clientOf m cl)] ++ evsb)%list.
        rewrite Htrb. cbn [w2 trace]. rewrite Htr1, <- !app_assoc.
        rewrite !count_app, Hc1, Hm1, Hmb, Hcb, Hdb.
        cbn [count isCall isMark isDial]. split_and!; auto with lia.
        rewrite Hcfgb. done.
      * intros [= <- <-]. left.
        exists (evs1 ++ [EvCall m (clientOf m cl)])%list. cbn [trace].
        rewrite Htr1, <- !app_assoc, !count_app, Hc1, Hm1.
        cbn [count isCall isMark isDial]. split_and!; auto with lia.
    + intros [= <- <-]. left.
      exists (evs1 ++ [EvCall m (clientOf m cl)])%list. cbn [trace].
      rewrite Htr1, <- !app_assoc, !count_app, Hc1, Hm1.
      cbn [count isCall isMark isDial]. split_and!; auto with lia. done.
  - intros [= <- <-]. left. exists evs1. split_and!; auto with lia.
Qed.

(** X17: whatever the peer does, one call of a wrapper method makes at most
    two remote calls, calls [MarkConnectionBroken] at most once and only
    after a remote call, and dials at most twice [MaxRetries + 1] times. *)
Theorem wrapper_effort_bounded (env : Env) (m : Method) (req : Request)
    (w : World) :
  (count isCall (since w (wrapper env m req w).2) ≤ 2)%nat ∧
  (count isMark (since w (wrapper env m req w).2) ≤ 1)%nat ∧
  (count isMark (since w (wrapper env m req w).2)
   ≤ count isCall (since w (wrapper env m req w).2))%nat ∧
  (count isDial (since w (wrapper env m req w).2)
   ≤ 2 * Z.to_nat (MaxRetries (config (cm w)) + 1))%nat.
Proof.
  rewrite wrapper_eq. unfold resilientCall.
  destruct (attemptBody env m (requestOf m req) 0 _ w) as [r w'] eqn:Hrun.
  cbn [snd].
  apply attemptBody_run in Hrun
    as [(evs & Htr & Hc & Hm & Hd & _)
       | (_ & w2 & evs & Htr & Hc & Hm & Hd & Hcfg & Hrun)].
  { rewrite (since_app w w' evs Htr). lia. }
  apply attemptBody_run in Hrun
    as [(evs2 & Htr2 & Hc2 & Hm2 & Hd2 & _) | (Habs & _)]; [|done].
  rewrite Hcfg in Hd2. rewrite Htr, <- app_assoc in Htr2.
  rewrite (since_app w w' _ Htr2), !count_app. lia.
Qed.

(** X18: a wrapper method never returns a result together with an error:
    when the error is not nil the result is nil. *)
Theorem wrapper_error_has_no_result (env : Env) (m : Method)
    (req : Request) (w : World) :
  (wrapper env m req w).1.2 ≠ None → (wrapper env m req w).1.1 = None.
Proof.
  rewrite wrapper_eq. unfold resilientCall.
  destruct (attemptBody env m (requestOf m req) 0 _ w) as [r w'] eqn:Hrun.
  cbn [fst].
  apply attemptBody_run in Hrun
    as [(evs & _ & _ & _ & _ & Hr) | (_ & w2 & evs & _ & _ & _ & _ & _ & Hrun)];
    [done|].
  apply attemptBody_run in Hrun
    as [(evs2 & _ & _ & _ & _ & Hr) | (Habs & _)]; done.
Qed.

Lemma wrapper_error_has_no_result_witness :
  (wrapper (failingEnv (errors_New "task not found")) Task_Kill "req"
     freshWorld).1.1 = None.
Proof.
  apply (wrapper_error_has_no_result
           (failingEnv (errors_New "task not found")) Task_Kill "req"
           freshWorld).
  vm_compute. discriminate.
Defined.

Lemma attemptBody_ext (env : Env) (m : Method) (req : Request) (attempt : Z)
    (k k' : M (option Response * option error)) (w : World) :
  (∀ w, k w = k' w) →
  attemptBody env m req attempt k w = attemptBody env m req attempt k' w.
Proof.
  intros Hk. unfold attemptBody, bind.
  destruct (GetClients env w) as [[[cl|] [err|]] w1]; try done.
  destruct (invoke env m cl req w1) as [[result [e|]] w2]; [|done].
  destruct (isConnectionError (Some e) && (attempt =? 0)); [|done].
  by destruct (MarkConnectionBroken w2).
Qed.

Lemma attemptBody_last (env : Env) (m : Method) (req : Request)
    (k k' : M (option Response * option error)) (w : World) :
  attemptBody env m req 1 k w = attemptBody env m req 1 k' w.
Proof.
  unfold attemptBody, bind.
  destruct (GetClients env w) as [[[cl|] [err|]] w1]; try done.
  destruct (invoke env m cl req w1) as [[result [e|]] w2]; [|done].
  change (1 =? 0) with false. by rewrite andb_false_r.
Qed.

(** X19: the statement after the loop of a wrapper method is never reached:
    with anything else in the place of [return nil,
    context.DeadlineExceeded] every method behaves the same, on every
    input. *)
Theorem fallback_after_loop_unreachable (env : Env) (m : Method)
    (req : Request) (fallback : M (option Response * option error))
    (w : World) :
  attemptBody env m (requestOf m req) 0
    (attemptBody env m (requestOf m req) 1 fallback) w
  = wrapper env m req w.
Proof.
  rewrite wrapper_eq. unfold resilientCall.
  apply attemptBody_ext. intros w1. apply attemptBody_last.
Qed.

(** X20: when the remote call succeeds on the first attempt, every wrapper
    method returns its result with a nil error after this one call, without
    [MarkConnectionBroken]. *)
Theorem wrapper_success_first_attempt (env : Env) (m : Method)
    (req : Request) (w w1 w2 : World) (cl : AgentClients)
    (result : option Response) :
  GetClients env w = ((Some cl, None), w1) →
  invoke env m cl (requestOf m req) w1 = ((result, None), w2) →
  wrapper env m req w = ((result, None), w2) ∧
  count isMark (since w w2) = 0%nat ∧
  count isCall (since w w2) = 1%nat.
Proof.
  intros Hget Hcall.
  destruct (attempt_trace env m _ w w1 w2 cl _ Hget Hcall)
    as (evs & Htr & Hm & Hc).
  rewrite (since_app w w2 evs Htr). split; [|done].
  rewrite wrapper_eq. unfold resilientCall, attemptBody at 1.
  unfold bind at 1. rewrite Hget. unfold bind at 1. by rewrite Hcall.
Qed.

Lemma wrapper_success_first_attempt_witness :
  let env := {| dialResult := fun _ => None; ctxDone := fun _ => None;
                rpcResult := fun _ _ _ req => (Some req, None) |} in
  wrapper env IOProxy_Attach "req" freshWorld
    = ((Some "req", None), (wrapper env IOProxy_Attach "req" freshWorld).2) ∧
  count isMark (since freshWorld (wrapper env IOProxy_Attach "req" freshWorld).2)
    = 0%nat ∧
  count isCall (since freshWorld (wrapper env IOProxy_Attach "req" freshWorld).2)
    = 1%nat.
Proof.
  intros env.
  apply (wrapper_success_first_attempt env IOProxy_Attach "req" freshWorld
           (GetClients env freshWorld).2
           (wrapper env IOProxy_Attach "req" freshWorld).2 (bundleOf 0%nat));
    vm_compute; reflexivity.
Defined.

(** X21: when [GetClients] fails, every wrapper method returns its error as
    it is and makes no remote call after it.  At the entry of the method
    this means no remote call and no [MarkConnectionBroken] at all; on the
    retry, after a first remote call that failed with a connection-level
    error, it means exactly that one remote call and the one
    [MarkConnectionBroken] that followed it. *)
Theorem wrapper_returns_GetClients_error (env : Env) (m : Method)
    (req : Request) (w : World) (err : error) :
  (∀ cl w1,
     GetClients env w = ((cl, Some err), w1) →
     wrapper env m req w = ((None, Some err), w1) ∧
     count isCall (since w w1) = 0%nat ∧
     count isMark (since w w1) = 0%nat) ∧
  (∀ cl1 w1 result1 err1 w2 cl2 w3,
     GetClients env w = ((Some cl1, None), w1) →
     invoke env m cl1 (requestOf m req) w1 = ((result1, Some err1), w2) →
     isConnectionError (Some err1) = true →
     GetClients env (MarkConnectionBroken w2).2 = ((cl2, Some err), w3) →
     wrapper env m req w = ((None, Some err), w3) ∧
     count isCall (since w w3) = 1%nat ∧
     count isMark (since w w3) = 1%nat).
Proof.
  split.
  - intros cl w1 Hget. split.
    + rewrite wrapper_eq. unfold resilientCall, attemptBody at 1.
      unfold bind at 1. rewrite Hget. by destruct cl.
    + apply GetClients_run in Hget.
      destruct Hget as (evs & Htr & Hc & Hm & _).
      by rewrite (since_app w w1 evs Htr).
  - intros cl1 w1 result1 err1 w2 cl2 w3 Hget1 Hcall1 Hclass1 Hget2.
    destruct (attempt_trace env m _ w w1 w2 cl1 _ Hget1 Hcall1)
      as (evs1 & Htr1 & Hm1 & Hc1).
    split.
    + rewrite wrapper_eq. unfold resilientCall, attemptBody at 1.
      unfold bind at 1. rewrite Hget1. unfold bind at 1. rewrite Hcall1.
      rewrite Hclass1. change (true && (0 =? 0)) with true. cbv iota.
      unfold bind at 1. destruct (MarkConnectionBroken w2) as [[] w2'].
      cbn [snd] in Hget2. unfold attemptBody. unfold bind at 1.
      rewrite Hget2. by destruct cl2.
    + rewrite MarkConnectionBroken_eq in Hget2. cbn [snd] in Hget2.
      apply GetClients_run in Hget2.
      destruct Hget2 as (evs2 & Htr2 & Hc2 & Hm2 & _).
      destruct (brokenWorld_trace w2) as (evsb & Htrb & Hmb & Hcb & _).
      rewrite Htrb, Htr1, <- !app_assoc in Htr2.
      rewrite (since_app w w3 _ Htr2), !count_app. lia.
Qed.

Lemma wrapper_returns_GetClients_error_witness :
  let env :=
    {| dialResult := fun n => if (n =? 0)%nat then None
                              else Some (errors_New "connection refused");
       ctxDone := fun _ => None;
       rpcResult := fun _ _ _ _ => (None, Some (errors_New "EOF")) |} in
  let exhausted :=
    errors_New "failed to establish vsock connection after 4 attempts" in
  (wrapper refusingEnv Task_Create "req" freshWorld
     = ((None, Some exhausted), (GetClients refusingEnv freshWorld).2) ∧
   count isCall (since freshWorld (GetClients refusingEnv freshWorld).2)
     = 0%nat ∧
   count isMark (since freshWorld (GetClients refusingEnv freshWorld).2)
     = 0%nat) ∧
  (wrapper env Task_Create "req" freshWorld
     = ((None, Some exhausted), (wrapper env Task_Create "req" freshWorld).2) ∧
   count isCall (since freshWorld (wrapper env Task_Create "req" freshWorld).2)
     = 1%nat ∧
   count isMark (since freshWorld (wrapper env Task_Create "req" freshWorld).2)
     = 1%nat).
Proof.
  intros env exhausted. split.
  - destruct (wrapper_returns_GetClients_error refusingEnv Task_Create "req"
                freshWorld exhausted) as [H _].
    apply (H None). vm_compute. reflexivity.
  - destruct (wrapper_returns_GetClients_error env Task_Create "req"
                freshWorld exhausted) as [_ H].
    pose (w1 := (GetClients env freshWorld).2).
    pose (w2 := (invoke env Task_Create (bundleOf 0%nat) "req" w1).2).
    assert (Hw : (wrapper env Task_Create "req" freshWorld).2
                 = (GetClients env (MarkConnectionBroken w2).2).2)
      by (vm_compute; reflexivity).
    rewrite Hw.
    apply (H (bundleOf 0%nat) w1 None (errors_New "EOF") w2 None);
      vm_compute; reflexivity.
Defined.

(** X22: when the first remote call fails with a connection-level error and
    the call after the reconnect succeeds, every wrapper method returns the
    result of the second call with a nil error; it has called
    [MarkConnectionBroken] once and made two remote calls, the second on a
    bundle and a client that are not the ones that failed. *)
Theorem wrapper_recovers_on_new_bundle (env : Env) (m : Method)
    (req : Request) (w w1 w2 w3 w4 : World) (cl1 cl2 : AgentClients)
    (result1 result2 : option Response) (err1 : error) :
  wellFormed w →
  GetClients env w = ((Some cl1, None), w1) →
  invoke env m cl1 (requestOf m req) w1 = ((result1, Some err1), w2) →
  isConnectionError (Some err1) = true →
  GetClients env (MarkConnectionBroken w2).2 = ((Some cl2, None), w3) →
  invoke env m cl2 (requestOf m req) w3 = ((result2, None), w4) →
  wrapper env m req w = ((result2, None), w4) ∧
  count isMark (since w w4) = 1%nat ∧
  count isCall (since w w4) = 2%nat ∧
  cl2 ≠ cl1 ∧ clientOf m cl2 ≠ clientOf m cl1.
Proof.
  intros Hwf Hget1 Hcall1 Hclass1 Hget2 Hcall2.
  destruct (attempt_trace env m _ w w1 w2 cl1 _ Hget1 Hcall1)
    as (evs1 & Htr1 & Hm1 & Hc1).
  destruct (attempt_trace env m _ _ w3 w4 cl2 _ Hget2 Hcall2)
    as (evs2 & Htr2 & Hm2 & Hc2).
  split.
  { rewrite wrapper_eq. unfold resilientCall, attemptBody at 1.
    unfold bind at 1. rewrite Hget1. unfold bind at 1. rewrite Hcall1.
    rewrite Hclass1. change (true && (0 =? 0)) with true. cbv iota.
    unfold bind at 1. destruct (MarkConnectionBroken w2) as [[] w2'].
    cbn [snd] in Hget2. unfold attemptBody. unfold bind at 1. rewrite Hget2.
    unfold bind at 1. by rewrite Hcall2. }
  rewrite MarkConnectionBroken_eq in Htr2, Hget2. cbn [snd] in Htr2, Hget2.
  destruct (brokenWorld_trace w2) as (evsb & Htrb & Hmb & Hcb & _ & Hdb & _).
  split; [|split].
  { rewrite Htrb, Htr1, <- !app_assoc in Htr2.
    rewrite (since_app w w4 _ Htr2), !count_app. lia. }
  { rewrite Htrb, Htr1, <- !app_assoc in Htr2.
    rewrite (since_app w w4 _ Htr2), !count_app. lia. }
  (* the first bundle was built by a dial before the reconnect *)
  pose proof (GetClients_wellFormed env _ _ _ Hwf Hget1) as [_ Hwf1].
  apply GetClients_run in Hget1.
  destruct Hget1 as (_ & _ & _ & _ & _ & _ & _ & _ & Hcl1 & _).
  rewrite Hcl1 in Hwf1. destruct Hwf1 as (n1 & Hn1 & -> & _).
  assert (Hd2 : dials w2 = dials w1).
  { rewrite invoke_eq in Hcall1. by injection Hcall1 as _ <-. }
  assert (Hcl2 : clients (cm (brokenWorld w2)) = None).
  { rewrite invoke_eq in Hcall1. injection Hcall1 as _ <-.
    unfold brokenWorld. cbn [cm]. by rewrite Hcl1. }
  apply GetClients_run in Hget2.
  destruct Hget2 as (_ & _ & _ & _ & _ & _ & _ & _ & _ & Hr).
  destruct Hr as [[Hcl2' _] | [_ (n2 & Hn2 & ->)]]; [congruence|].
  rewrite Hdb, Hd2 in Hn2.
  assert (n2 ≠ n1) by lia.
  split; [by intros [= ?]|]. by destruct m.
Qed.

Lemma wrapper_recovers_on_new_bundle_witness :
  let env := {| dialResult := fun _ => None; ctxDone := fun _ => None;
                rpcResult := fun n _ _ req =>
                  if (n =? 0)%nat then (None, Some (errors_New "EOF"))
                  else (Some req, None) |} in
  wrapper env Task_Start "req" freshWorld
    = ((Some "req", None), (wrapper env Task_Start "req" freshWorld).2) ∧
  count isMark (since freshWorld (wrapper env Task_Start "req" freshWorld).2)
    = 1%nat ∧
  count isCall (since freshWorld (wrapper env Task_Start "req" freshWorld).2)
    = 2%nat ∧
  bundleOf 1%nat ≠ bundleOf 0%nat ∧
  clientOf Task_Start (bundleOf 1%nat) ≠ clientOf Task_Start (bundleOf 0%nat).
Proof.
  intros env.
  pose (w1 := (GetClients env freshWorld).2).
  pose (w2 := (invoke env Task_Start (bundleOf 0%nat) "req" w1).2).
  pose (w3 := (GetClients env (MarkConnectionBroken w2).2).2).
  pose (w4 := (invoke env Task_Start (bundleOf 1%nat) "req" w3).2).
  assert (Hw : (wrapper env Task_Start "req" freshWorld).2 = w4)
    by (vm_compute; reflexivity).
  rewrite Hw.
  apply (wrapper_recovers_on_new_bundle env Task_Start "req" freshWorld
           w1 w2 w3 w4 (bundleOf 0%nat) (bundleOf 1%nat) None (Some "req")
           (errors_New "EOF"));
    [split; [reflexivity | hnf; split; reflexivity]
    | vm_compute; reflexivity ..].
Defined.

(** ** OCI annotations *)

Lemma annotation_allocate (s : oci.Spec) (key : string) :
  oci.annotation (oci.allocate s) key = oci.annotation s key.
Proof.
  destruct s as [v [m|]]; [done|].
  unfold oci.annotation, oci.allocate, mbind, option_bind.
  cbn [oci.Annotations]. by rewrite lookup_empty.
Qed.

Lemma annotation_set (s : oci.Spec) (key value key' : string) :
  oci.annotation (oci.setAnnotation key value s) key'
  = if decide (key = key') then Some value else oci.annotation s key'.
Proof.
  destruct s as [v m].
  unfold oci.annotation, oci.setAnnotation, mbind, option_bind.
  cbn [oci.Annotations]. rewrite lookup_insert. case_decide; [done|].
  destruct m; cbn [default]; [done | by rewrite lookup_empty].
Qed.

Lemma Version_set (s : oci.Spec) (key value : string) :
  oci.Version (oci.setAnnotation key value s) = oci.Version s.
Proof. done. Qed.

Lemma Version_allocate (s : oci.Spec) :
  oci.Version (oci.allocate s) = oci.Version s.
Proof. by destruct s as [v [m|]]. Qed.

Lemma setAnnotation_allocate (s : oci.Spec) (key value : string) :
  oci.setAnnotation key value (oci.allocate s) = oci.setAnnotation key value s.
Proof. by destruct s as [v [m|]]. Qed.

Lemma allocate_set (s : oci.Spec) (key value : string) :
  oci.allocate (oci.setAnnotation key value s) = oci.setAnnotation key value s.
Proof. done. Qed.

Lemma allocate_idemp (s : oci.Spec) :
  oci.allocate (oci.allocate s) = oci.allocate s.
Proof. by destruct s as [v [m|]]. Qed.

Lemma setAnnotation_comm (s : oci.Spec) (k1 v1 k2 v2 : string) :
  k1 ≠ k2 →
  oci.setAnnotation k1 v1 (oci.setAnnotation k2 v2 s)
  = oci.setAnnotation k2 v2 (oci.setAnnotation k1 v1 s).
Proof.
  intros Hne. unfold oci.setAnnotation. simpl. f_equal. f_equal.
  by apply insert_insert_ne.
Qed.

Lemma setAnnotation_twice (s : oci.Spec) (k v1 v2 : string) :
  oci.setAnnotation k v2 (oci.setAnnotation k v1 s) = oci.setAnnotation k v2 s.
Proof.
  unfold oci.setAnnotation. simpl. f_equal. f_equal.
  by rewrite insert_insert_eq.
Qed.

(** X23: [WithVMID] never fails; it leaves an allocated annotation map in
    which the VM ID key holds the given ID and every other key holds what it
    held before (nothing, if the map was nil), and the rest of the spec is
    untouched. *)
Theorem WithVMID_sets_its_key (vmID : string) (s : oci.Spec) :
  (firecrackeroci.WithVMID vmID s).2 = None ∧
  oci.Annotations (firecrackeroci.WithVMID vmID s).1 ≠ None ∧
  oci.annotation (firecrackeroci.WithVMID vmID s).1
    firecrackeroci.VMIDAnnotationKey = Some vmID ∧
  (∀ key, key ≠ firecrackeroci.VMIDAnnotationKey →
          oci.annotation (firecrackeroci.WithVMID vmID s).1 key
          = oci.annotation s key) ∧
  oci.Version (firecrackeroci.WithVMID vmID s).1 = oci.Version s.
Proof.
  unfold firecrackeroci.WithVMID. cbn [fst snd].
  split; [done|]. split; [done|].
  split; [rewrite annotation_set; by case_decide|].
  split; [|by rewrite Version_set, Version_allocate].
  intros key Hne. rewrite annotation_set, annotation_allocate.
  by case_decide.
Qed.

Lemma WithVMID_sets_its_key_witness :
  let s := {| oci.Version := "1.0.2";
              oci.Annotations := Some {["owner" := "team-a"]} |} in
  oci.annotation (firecrackeroci.WithVMID "vm-1" s).1 "owner"
    = Some "team-a".
Proof.
  intros s.
  destruct (WithVMID_sets_its_key "vm-1" s) as (_ & _ & _ & H & _).
  rewrite H; [reflexivity | discriminate].
Defined.

(** X24: [WithVMSizeConfig] never fails and writes a count only when it is
    positive, as its decimal text; for a count of zero the key keeps what it
    held (also a value set earlier); every other key and the rest of the
    spec are untouched. *)
Theorem WithVMSizeConfig_skips_zero (vcpuCount memSizeMib : N)
    (s : oci.Spec) :
  let s' := (firecrackeroci.WithVMSizeConfig vcpuCount memSizeMib s).1 in
  (firecrackeroci.WithVMSizeConfig vcpuCount memSizeMib s).2 = None ∧
  oci.annotation s' firecrackeroci.VMVCpuCountAnnotationKey
    = (if (0 <? vcpuCount)%N then Some (pretty vcpuCount)
       else oci.annotation s firecrackeroci.VMVCpuCountAnnotationKey) ∧
  oci.annotation s' firecrackeroci.VMMemSizeMibAnnotationKey
    = (if (0 <? memSizeMib)%N then Some (pretty memSizeMib)
       else oci.annotation s firecrackeroci.VMMemSizeMibAnnotationKey) ∧
  (∀ key, key ≠ firecrackeroci.VMVCpuCountAnnotationKey →
          key ≠ firecrackeroci.VMMemSizeMibAnnotationKey →
          oci.annotation s' key = oci.annotation s key) ∧
  oci.Version s' = oci.Version s.
Proof.
  unfold firecrackeroci.WithVMSizeConfig. cbn [fst snd].
  split; [done|].
  destruct (0 <? vcpuCount)%N, (0 <? memSizeMib)%N;
    rewrite ?annotation_set, ?annotation_allocate, ?Version_set,
      ?Version_allocate;
    (split; [by repeat case_decide|]); (split; [by repeat case_decide|]);
    (split; [|done]); intros key H1 H2;
    rewrite ?annotation_set, ?annotation_allocate; by repeat case_decide.
Qed.

Lemma WithVMSizeConfig_skips_zero_witness :
  let s := {| oci.Version := "1.0.2";
              oci.Annotations :=
                Some {[firecrackeroci.VMVCpuCountAnnotationKey := "4"]} |} in
  oci.annotation (firecrackeroci.WithVMSizeConfig 0 512 s).1
    firecrackeroci.VMVCpuCountAnnotationKey = Some "4" ∧
  oci.annotation (firecrackeroci.WithVMSizeConfig 0 512 s).1
    firecrackeroci.VMMemSizeMibAnnotationKey = Some "512" ∧
  oci.annotation (firecrackeroci.WithVMSizeConfig 0 512 s).1
    firecrackeroci.VMIDAnnotationKey = None.
Proof.
  intros s.
  destruct (WithVMSizeConfig_skips_zero 0 512 s) as (_ & H1 & H2 & H3 & _).
  split; [exact H1|]. split; [exact H2|].
  rewrite H3; [reflexivity | discriminate | discriminate].
Defined.

(** X25: [WithVMProvisionMode] fails exactly when the mode is the clone
    mode and one of the two snapshot paths is empty.  It writes the mode
    annotation in every case, also when it fails; it writes the two snapshot
    paths only for a clone with both paths given, and leaves them as they
    were otherwise. *)
Theorem WithVMProvisionMode_behaviour
    (mode : firecrackeroci_clone.ProvisionMode)
    (snapshotMemPath snapshotStatePath : string) (s : oci.Spec) :
  let r := firecrackeroci_clone.WithVMProvisionMode mode snapshotMemPath
             snapshotStatePath s in
  let complete := mode = firecrackeroci_clone.ProvisionModeClone ∧
                  snapshotMemPath ≠ "" ∧ snapshotStatePath ≠ "" in
  (r.2 ≠ None ↔
   mode = firecrackeroci_clone.ProvisionModeClone ∧
   (snapshotMemPath = "" ∨ snapshotStatePath = "")) ∧
  oci.annotation r.1 firecrackeroci_clone.VMProvisionMode = Some mode ∧
  (complete →
   oci.annotation r.1 firecrackeroci_clone.VMSnapshotMemoryPath
     = Some snapshotMemPath ∧
   oci.annotation r.1 firecrackeroci_clone.VMSnapshotStatePath
     = Some snapshotStatePath) ∧
  (¬ complete →
   oci.annotation r.1 firecrackeroci_clone.VMSnapshotMemoryPath
     = oci.annotation s firecrackeroci_clone.VMSnapshotMemoryPath ∧
   oci.annotation r.1 firecrackeroci_clone.VMSnapshotStatePath
     = oci.annotation s firecrackeroci_clone.VMSnapshotStatePath).
Proof.
  cbn zeta. unfold firecrackeroci_clone.WithVMProvisionMode.
  destruct (String.eqb_spec mode firecrackeroci_clone.ProvisionModeClone)
    as [Hmode | Hmode].
  - destruct (String.eqb_spec snapshotMemPath "") as [Hmem | Hmem];
      [|destruct (String.eqb_spec snapshotStatePath "") as [Hstate | Hstate]];
      cbn [orb fst snd];
      rewrite ?annotation_set, ?annotation_allocate;
      repeat case_decide; try done.
    + split; [split; [by auto | done]|].
      split; [done|]. split; [by intros (_ & ? & _) | done].
    + split; [split; [by auto | done]|].
      split; [done|]. split; [by intros (_ & _ & ?) | done].
    + split; [split; [done | by intros [_ [? | ?]]]|].
      split; [done|]. split; [done | by intros []].
  - cbn [fst snd]. rewrite ?annotation_set, ?annotation_allocate.
    repeat case_decide; try done.
    split; [split; [done | by intros [? _]]|].
    split; [done|]. split; [by intros (? & _) | done].
Qed.

Lemma WithVMProvisionMode_behaviour_witness :
  let s := {| oci.Version := "1.0.2"; oci.Annotations := None |} in
  (firecrackeroci_clone.WithVMProvisionMode "Clone" "/snap/mem" "" s).2
    ≠ None ∧
  oci.annotation
    (firecrackeroci_clone.WithVMProvisionMode "Clone" "/snap/mem" "" s).1
    firecrackeroci_clone.VMProvisionMode = Some "Clone" ∧
  oci.annotation
    (firecrackeroci_clone.WithVMProvisionMode "Clone" "/snap/mem" "" s).1
    firecrackeroci_clone.VMSnapshotMemoryPath = None ∧
  oci.annotation
    (firecrackeroci_clone.WithVMProvisionMode "Clone" "/snap/mem" "/snap/vm"
       s).1
    firecrackeroci_clone.VMSnapshotStatePath = Some "/snap/vm".
Proof.
  intros s.
  destruct (WithVMProvisionMode_behaviour "Clone" "/snap/mem" "" s)
    as (H1 & H2 & _ & H4).
  destruct (WithVMProvisionMode_behaviour "Clone" "/snap/mem" "/snap/vm" s)
    as (_ & _ & H3 & _).
  split; [apply H1; by auto|]. split; [exact H2|]. split.
  - apply H4. by intros (_ & _ & ?).
  - apply H3. done.
Defined.

(** X26: [ValidateVMProvisionMode] accepts exactly the empty mode, "Create"
    and "Clone", however [%q] formats a string. *)
Theorem ValidateVMProvisionMode_accepts (quote : string → string)
    (mode : string) :
  firecrackeroci_clone.ValidateVMProvisionMode quote mode = None ↔
  mode = "" ∨ mode = firecrackeroci_clone.ProvisionModeCreate
  ∨ mode = firecrackeroci_clone.ProvisionModeClone.
Proof.
  unfold firecrackeroci_clone.ValidateVMProvisionMode.
  destruct (String.eqb_spec mode firecrackeroci_clone.ProvisionModeCreate),
    (String.eqb_spec mode firecrackeroci_clone.ProvisionModeClone),
    (String.eqb_spec mode ""); cbn [negb andb];
    split; try done; try tauto.
Qed.

Lemma ValidateVMProvisionMode_accepts_witness :
  firecrackeroci_clone.ValidateVMProvisionMode (fun x => x) "Clone" = None ∧
  firecrackeroci_clone.ValidateVMProvisionMode (fun x => x) "clone" ≠ None.
Proof.
  split.
  - apply (ValidateVMProvisionMode_accepts (fun x => x) "Clone"). auto.
  - intros H.
    apply (ValidateVMProvisionMode_accepts (fun x => x) "clone") in H.
    by destruct H as [? | [? | ?]].
Defined.

(** X27: [WithVMProvisionMode] does not validate the mode: every mode the
    validator rejects is written into the annotation without an error, so a
    spec built with the option can fail validation later; the modes
    "Create" and "Clone" it writes pass. *)
Theorem WithVMProvisionMode_writes_unvalidated (quote : string → string)
    (mode : firecrackeroci_clone.ProvisionMode)
    (snapshotMemPath snapshotStatePath : string) (s : oci.Spec) :
  let r := firecrackeroci_clone.WithVMProvisionMode mode snapshotMemPath
             snapshotStatePath s in
  (firecrackeroci_clone.ValidateVMProvisionMode quote mode ≠ None →
   r.2 = None ∧
   oci.annotation r.1 firecrackeroci_clone.VMProvisionMode = Some mode) ∧
  (mode = firecrackeroci_clone.ProvisionModeCreate
   ∨ mode = firecrackeroci_clone.ProvisionModeClone →
   ∃ written,
     oci.annotation r.1 firecrackeroci_clone.VMProvisionMode = Some written ∧
     firecrackeroci_clone.ValidateVMProvisionMode quote written = None).
Proof.
  cbn zeta.
  assert (Hwritten :
    oci.annotation
      (firecrackeroci_clone.WithVMProvisionMode mode snapshotMemPath
         snapshotStatePath s).1 firecrackeroci_clone.VMProvisionMode
    = Some mode).
  { unfold firecrackeroci_clone.WithVMProvisionMode.
    destruct (String.eqb mode _);
      [destruct (String.eqb snapshotMemPath "" || _)|];
      cbn [fst]; rewrite ?annotation_set, ?annotation_allocate;
      by repeat case_decide. }
  split.
  - intros Hinvalid. split; [|done].
    unfold firecrackeroci_clone.WithVMProvisionMode.
    destruct (String.eqb_spec mode firecrackeroci_clone.ProvisionModeClone)
      as [-> | _]; [|done].
    by destruct Hinvalid.
  - intros Hmode. exists mode. split; [done|].
    unfold firecrackeroci_clone.ValidateVMProvisionMode.
    by destruct Hmode as [-> | ->].
Qed.

Lemma WithVMProvisionMode_writes_unvalidated_witness :
  let s := {| oci.Version := "1.0.2"; oci.Annotations := None |} in
  firecrackeroci_clone.ValidateVMProvisionMode (fun x => x) "clone" ≠ None ∧
  (firecrackeroci_clone.WithVMProvisionMode "clone" "" "" s).2 = None ∧
  oci.annotation (firecrackeroci_clone.WithVMProvisionMode "clone" "" "" s).1
    firecrackeroci_clone.VMProvisionMode = Some "clone".
Proof.
  intros s. split; [discriminate|].
  apply (WithVMProvisionMode_writes_unvalidated (fun x => x) "clone" "" "" s).
  discriminate.
Defined.

(** X28: the options that write different keys can be applied in any order:
    [WithVMID], [WithVMSizeConfig] and
    [WithVMSnapshotDriveOverridesJsonMapString] commute pairwise, and
    applying [WithVMID] again overwrites the ID written before. *)
Theorem annotation_options_commute (vmID vmID' overrides : string)
    (vcpuCount memSizeMib : N) (s : oci.Spec) :
  let id := firecrackeroci_clone.WithVMID vmID in
  let size := firecrackeroci_clone.WithVMSizeConfig vcpuCount memSizeMib in
  let drives :=
    firecrackeroci_clone.WithVMSnapshotDriveOverridesJsonMapString overrides in
  (size (id s).1).1 = (id (size s).1).1 ∧
  (drives (id s).1).1 = (id (drives s).1).1 ∧
  (drives (size s).1).1 = (size (drives s).1).1 ∧
  (firecrackeroci_clone.WithVMID vmID' (id s).1).1
    = (firecrackeroci_clone.WithVMID vmID' s).1.
Proof.
  cbn zeta.
  unfold firecrackeroci_clone.WithVMID, firecrackeroci_clone.WithVMSizeConfig,
    firecrackeroci_clone.WithVMSnapshotDriveOverridesJsonMapString.
  cbn [fst].
  destruct (0 <? vcpuCount)%N, (0 <? memSizeMib)%N;
    rewrite ?allocate_set, ?setAnnotation_allocate, ?setAnnotation_twice;
    split_and!; try done;
    rewrite ?allocate_set, ?setAnnotation_allocate;
    repeat (first
      [ done
      | rewrite (setAnnotation_comm _ firecrackeroci_clone.VMIDAnnotationKey)
          by done
      | rewrite (setAnnotation_comm _ 
                   firecrackeroci_clone.VMSnapshotDriveOverrides) by done
      | f_equal ]).
Qed.
